(** * samba_users: a shallow embedding of the Salt module [_modules/samba_users.py]

    The module runs [smbstatus --shares] and [smbstatus --locks], parses the
    text they print, groups the records by share and adds the disk usage of
    the mount points of the configured directories.

    Conventions of the embedding.
    - Python text is a Rocq [string]: a sequence of 8-bit characters, read as
      the code points below 256 (what the latin-1 fallback of the command
      runner produces, and ASCII).  On these code points the Unicode classes
      [\d] and [\s] of [re.UNICODE] are the ones written out in [Py].
    - A Python [dict] used as a record or as a map is a [gmap]; a [set] is a
      [gset].
    - A Python call that may raise returns a [result]; the calls of [stats],
      which talk to the host, live in the writer monad [M] that also keeps the
      trace of what was run and raised.
    - The pieces of the Python 2.7 library the module calls ([re],
      [datetime.strptime], [isoformat], [os.path]) are modelled in [Py], [Re]
      and [Datetime]; the module itself is [Samba]. *)

From Stdlib Require Import ZArith NArith Ascii String List Lia Bool DecimalString.
From stdpp Require Import gmap strings list fin_maps.

(* ===================================================================== *)
(** * Python values and text operations *)
(* ===================================================================== *)

Module Py.

(** The exceptions the module can raise or let through. *)
Inductive exn : Type :=
| SmbstatusError (msg : string)
| KeyError (key : string)
| IndexError
| ValueError
| AssertionError.

Inductive result (A : Type) : Type :=
| Ok (a : A)
| Raise (e : exn).
Arguments Ok {A} a.
Arguments Raise {A} e.

Definition rbind {A B} (r : result A) (f : A → result B) : result B :=
  match r with
  | Ok a => f a
  | Raise e => Raise e
  end.

Definition TAB : ascii := "009"%char.
Definition NL : ascii := "010"%char.
Definition SP : ascii := " "%char.

Definition code (c : ascii) : N := N_of_ascii c.

Definition in_range (lo hi c : ascii) : bool :=
  ((code lo <=? code c) && (code c <=? code hi))%N.

(** [[0-9]], and [\d]: the decimal digits below 256 are the ASCII ones. *)
Definition is_digit (c : ascii) : bool := in_range "0" "9" c.

Definition is_upper (c : ascii) : bool := in_range "A" "Z" c.

Definition ceq (a c : ascii) : bool := Ascii.eqb a c.

(** [\s] without [re.UNICODE], and [str.isspace]: [ \t\n\r\f\v]. *)
Definition ascii_isspace (c : ascii) : bool :=
  ((9 <=? code c) && (code c <=? 13) || (code c =? 32))%N.

(** [\s] with [re.UNICODE], and [unicode.isspace], below 256. *)
Definition uni_isspace (c : ascii) : bool :=
  ((9 <=? code c) && (code c <=? 13) || (28 <=? code c) && (code c <=? 32)
   || (code c =? 133) || (code c =? 160))%N.

(** ASCII [tolower], the case folding of [re.IGNORECASE] alone. *)
Definition lower (c : ascii) : ascii :=
  if is_upper c then ascii_of_N (code c + 32) else c.

Fixpoint str_lower (s : string) : string :=
  match s with
  | EmptyString => EmptyString
  | String c s' => String (lower c) (str_lower s')
  end.

(** [s.startswith(p)] *)
Definition startswith (s p : string) : bool := String.prefix p s.

(** [sep.join(l)] *)
Definition join (sep : string) (l : list string) : string :=
  String.concat sep l.

(** [l[i:]] *)
Definition slice_from {A} (i : nat) (l : list A) : list A := drop i l.

(** [l[i]], which raises [IndexError] out of range. *)
Definition index {A} (l : list A) (i : nat) : result A :=
  match l !! i with
  | Some x => Ok x
  | None => Raise IndexError
  end.

(** [s.split()]: the maximal runs of non-blank characters. *)
Fixpoint split_go (isspace : ascii → bool) (cur : option string) (s : string)
  : list string :=
  match s with
  | EmptyString => option_list (String.rev <$> cur)
  | String c s' =>
      if isspace c
      then option_list (String.rev <$> cur) ++ split_go isspace None s'
      else split_go isspace
             (Some (String c (default EmptyString cur))) s'
  end.

Definition split (s : string) : list string := split_go uni_isspace None s.

(** [s.strip()] *)
Fixpoint lstrip (s : string) : string :=
  match s with
  | String c s' => if ascii_isspace c then lstrip s' else s
  | EmptyString => EmptyString
  end.

Definition strip (s : string) : string :=
  String.rev (lstrip (String.rev (lstrip s))).

(** [os.path.join(a, b)] *)
Definition ends_with_slash (s : string) : bool :=
  match String.rev s with
  | String c _ => ceq "/" c
  | EmptyString => false
  end.

Definition path_join (a b : string) : string :=
  if startswith b "/" then b
  else if (String.eqb a "" || ends_with_slash a)%bool then a +:+ b
  else a +:+ "/" +:+ b.

(** [os.path.basename(p)]: what follows the last slash. *)
Fixpoint basename_go (acc : string) (s : string) : string :=
  match s with
  | EmptyString => String.rev acc
  | String c s' =>
      if ceq "/" c then basename_go EmptyString s'
      else basename_go (String c acc) s'
  end.

Definition basename (p : string) : string := basename_go EmptyString p.

(** Decimal printing: ["%d" % n]. *)
Definition str_of_nat (n : nat) : string :=
  NilZero.string_of_uint (Nat.to_uint n).

Fixpoint pad (c : ascii) (k : nat) (s : string) : string :=
  match k with
  | O => s
  | S k' => String c (pad c k' s)
  end.

(** ["%<w>d" % n] pads with blanks, ["%0<w>d" % n] with zeros. *)
Definition fmt_d (w n : nat) : string :=
  let s := str_of_nat n in pad SP (w - String.length s) s.

Definition fmt_0d (w n : nat) : string :=
  let s := str_of_nat n in pad "0" (w - String.length s) s.

(** [int(s)] for a text of digits with blanks around it. *)
Definition digit_val (c : ascii) : nat := N.to_nat (code c - 48).

Fixpoint int_go (acc : nat) (s : string) : option nat :=
  match s with
  | EmptyString => Some acc
  | String c s' =>
      if is_digit c then int_go (10 * acc + digit_val c) s' else None
  end.

Definition int (s : string) : result nat :=
  match strip s with
  | EmptyString => Raise ValueError
  | t => match int_go 0 t with
         | Some n => Ok n
         | None => Raise ValueError
         end
  end.

(** [re.sub(u'  +', u'\t', s)]: every maximal run of two or more blanks
    becomes one tab.  [pending] counts the blanks of the run being read. *)
Definition flush (pending : nat) (t : string) : string :=
  match pending with
  | 0 => t
  | 1 => String SP t
  | _ => String TAB t
  end.

Fixpoint sub_spaces_go (pending : nat) (s : string) : string :=
  match s with
  | EmptyString => flush pending EmptyString
  | String c s' =>
      if ceq SP c then sub_spaces_go (S pending) s'
      else flush pending (String c (sub_spaces_go 0 s'))
  end.

Definition sub_spaces (s : string) : string := sub_spaces_go 0 s.

End Py.

Import Py.

(* ===================================================================== *)
(** * Regular expressions: the backtracking matcher of [re] *)
(* ===================================================================== *)

Module Re.

(** The constructs the patterns of the module and of [strptime] use.
    A quantifier is only ever applied to a character class. *)
Inductive regex : Type :=
| Eps
| Cls (p : ascii → bool)          (* one character of a class *)
| Plus (p : ascii → bool)         (* [c+], greedy *)
| Seq (r1 r2 : regex)
| Alt (r1 r2 : regex)             (* [r1|r2], the left one first *)
| Group (name : string) (r : regex).  (* [(?P<name>r)] *)

Fixpoint lit (s : string) : regex :=
  match s with
  | EmptyString => Eps
  | String c s' => Seq (Cls (ceq c)) (lit s')
  end.

(** A literal under [re.IGNORECASE]. *)
Fixpoint lit_i (s : string) : regex :=
  match s with
  | EmptyString => Eps
  | String c s' => Seq (Cls (λ x, ceq (lower c) (lower x))) (lit_i s')
  end.

Fixpoint seqs (rs : list regex) : regex :=
  match rs with
  | [] => Eps
  | [r] => r
  | r :: rs' => Seq r (seqs rs')
  end.

(** ['|'.join(...)] of at least one alternative. *)
Fixpoint alts (rs : list regex) : regex :=
  match rs with
  | [] => Eps
  | [r] => r
  | r :: rs' => Alt r (alts rs')
  end.

Abbreviation groups := (gmap string string).

(** The text a group consumed: [s] is the text where it started and [s']
    the text left when it ended. *)
Definition consumed (s s' : string) : string :=
  String.substring 0 (String.length s - String.length s') s.

(** Greedy repetition: take the character when the class has it, and give
    it back when the rest of the pattern then fails. *)
Fixpoint star_k {A} (p : ascii → bool) (s : string) (k : string → option A)
  : option A :=
  match s with
  | String c s' =>
      if p c
      then match star_k p s' k with
           | Some x => Some x
           | None => k s
           end
      else k s
  | EmptyString => k s
  end.

(** [rmatch r s g k]: match [r] at the start of [s] with the groups [g]
    set so far, then run the rest of the pattern [k] on what is left;
    [None] makes the matcher backtrack. *)
Fixpoint rmatch {A} (r : regex) (s : string) (g : groups)
    (k : string → groups → option A) : option A :=
  match r with
  | Eps => k s g
  | Cls p =>
      match s with
      | String c s' => if p c then k s' g else None
      | EmptyString => None
      end
  | Plus p =>
      match s with
      | String c s' => if p c then star_k p s' (λ t, k t g) else None
      | EmptyString => None
      end
  | Seq r1 r2 => rmatch r1 s g (λ s1 g1, rmatch r2 s1 g1 k)
  | Alt r1 r2 =>
      match rmatch r1 s g k with
      | Some x => Some x
      | None => rmatch r2 s g k
      end
  | Group n r1 =>
      rmatch r1 s g (λ s1 g1, k s1 (<[n := consumed s s1]> g1))
  end.

(** [pattern.match(s)]: the groups ([groupdict()]) and the text after the
    match ([s[m.end():]]). *)
Definition re_match (r : regex) (s : string) : option (groups * string) :=
  rmatch r s ∅ (λ s' g, Some (g, s')).

(** The same with the pattern anchored at the end of the text. *)
Definition re_fullmatch (r : regex) (s : string) : option groups :=
  rmatch r s ∅ (λ s' g, if String.eqb s' "" then Some g else None).

(** The names of the groups of a pattern. *)
Fixpoint group_names (r : regex) : gset string :=
  match r with
  | Eps | Cls _ | Plus _ => ∅
  | Seq r1 r2 | Alt r1 r2 => group_names r1 ∪ group_names r2
  | Group n r1 => {[n]} ∪ group_names r1
  end.

(** No group sits under an alternation: every group takes part in every
    match. *)
Fixpoint groups_definite (r : regex) : bool :=
  match r with
  | Eps | Cls _ | Plus _ => true
  | Seq r1 r2 => groups_definite r1 && groups_definite r2
  | Alt r1 r2 =>
      bool_decide (group_names r1 = ∅) && bool_decide (group_names r2 = ∅)
  | Group _ r1 => groups_definite r1
  end.

(** What a match is, without the search: [Matches r s g s' g'] when [r]
    can consume a prefix of [s], leaving [s'], and turn the groups [g]
    into [g']. *)
Inductive Matches : regex → string → groups → string → groups → Prop :=
| M_Eps s g : Matches Eps s g s g
| M_Cls p c s g : p c = true → Matches (Cls p) (String c s) g s g
| M_Plus1 p c s g : p c = true → Matches (Plus p) (String c s) g s g
| M_PlusS p c s s' g :
    p c = true → Matches (Plus p) s g s' g →
    Matches (Plus p) (String c s) g s' g
| M_Seq r1 r2 s g s1 g1 s2 g2 :
    Matches r1 s g s1 g1 → Matches r2 s1 g1 s2 g2 →
    Matches (Seq r1 r2) s g s2 g2
| M_AltL r1 r2 s g s' g' :
    Matches r1 s g s' g' → Matches (Alt r1 r2) s g s' g'
| M_AltR r1 r2 s g s' g' :
    Matches r2 s g s' g' → Matches (Alt r1 r2) s g s' g'
| M_Group n r s g s' g' :
    Matches r s g s' g' →
    Matches (Group n r) s g s' (<[n := consumed s s']> g').

End Re.

Import Re.

(* ===================================================================== *)
(** * [datetime.strptime] and [isoformat] of Python 2.7 *)
(* ===================================================================== *)

Module Datetime.

Record datetime : Type := mk_datetime {
  year : nat; month : nat; day : nat;
  hour : nat; minute : nat; second : nat
}.

Definition is_leap (y : nat) : bool :=
  ((y mod 4 =? 0) && (negb (y mod 100 =? 0) || (y mod 400 =? 0)))%nat.

Definition days_in_month (y m : nat) : nat :=
  match m with
  | 2 => if is_leap y then 29 else 28
  | 4 | 6 | 9 | 11 => 30
  | _ => 31
  end.

(** [datetime.MAXYEAR] *)
Definition MAXYEAR : nat := 9999.

(** [datetime(y, m, d, H, M, S)]: the constructor checks every field and
    raises [ValueError]. *)
Definition make (y m d H M S : nat) : result datetime :=
  if ((1 <=? y) && (y <=? MAXYEAR) && (1 <=? m) && (m <=? 12)
      && (1 <=? d) && (d <=? days_in_month y m)
      && (H <=? 23) && (M <=? 59) && (S <=? 59))%nat
  then Ok (mk_datetime y m d H M S)
  else Raise ValueError.

(** [dt.isoformat()] of a datetime without microseconds:
    ["%04d-%02d-%02d" "T" "%02d:%02d:%02d"]. *)
Definition isoformat (dt : datetime) : string :=
  fmt_0d 4 (year dt) +:+ "-" +:+ fmt_0d 2 (month dt) +:+ "-"
  +:+ fmt_0d 2 (day dt) +:+ "T" +:+ fmt_0d 2 (hour dt) +:+ ":"
  +:+ fmt_0d 2 (minute dt) +:+ ":" +:+ fmt_0d 2 (second dt).

(** The names of [LocaleTime] in the C locale, in lower case. *)
Definition a_weekday : list string :=
  ["mon"; "tue"; "wed"; "thu"; "fri"; "sat"; "sun"].
Definition a_month : list string :=
  [""; "jan"; "feb"; "mar"; "apr"; "may"; "jun";
   "jul"; "aug"; "sep"; "oct"; "nov"; "dec"].

Definition chr (c : ascii) : regex := Cls (ceq c).
Definition D : regex := Cls is_digit.                         (* [\d] *)
Definition rng (lo hi : ascii) : regex := Cls (in_range lo hi).
Definition WS : regex := Plus ascii_isspace.                  (* [\s+] *)

(** The directives of [TimeRE]. *)
Definition directive_a : regex := Group "a" (alts (lit_i <$> a_weekday)).
Definition directive_b : regex := Group "b" (alts (lit_i <$> tail a_month)).
(** [(?P<d>3[0-1]|[1-2]\d|0[1-9]|[1-9]| [1-9])] *)
Definition directive_d : regex :=
  Group "d" (alts [Seq (chr "3") (rng "0" "1"); Seq (rng "1" "2") D;
                   Seq (chr "0") (rng "1" "9"); rng "1" "9";
                   Seq (chr " ") (rng "1" "9")]).
(** [(?P<H>2[0-3]|[0-1]\d|\d)] *)
Definition directive_H : regex :=
  Group "H" (alts [Seq (chr "2") (rng "0" "3"); Seq (rng "0" "1") D; D]).
(** [(?P<M>[0-5]\d|\d)] *)
Definition directive_M : regex :=
  Group "M" (alts [Seq (rng "0" "5") D; D]).
(** [(?P<S>6[0-1]|[0-5]\d|\d)] *)
Definition directive_S : regex :=
  Group "S" (alts [Seq (chr "6") (rng "0" "1"); Seq (rng "0" "5") D; D]).
(** [(?P<Y>\d\d\d\d)] *)
Definition directive_Y : regex := Group "Y" (seqs [D; D; D; D]).

(** [TimeRE.pattern('%a %b %d %H:%M:%S %Y')]: each directive replaced by
    its pattern and each blank of the format by [\s+]; compiled with
    [re.IGNORECASE]. *)
Definition format_regex : regex :=
  seqs [directive_a; WS; directive_b; WS; directive_d; WS;
        directive_H; chr ":"; directive_M; chr ":"; directive_S; WS;
        directive_Y].

(** [l.index(x)] *)
Fixpoint list_index (x : string) (l : list string) : result nat :=
  match l with
  | [] => Raise ValueError
  | y :: l' => if String.eqb y x then Ok 0
               else rbind (list_index x l') (λ i, Ok (S i))
  end.

(** A field of the match when its group is there, its default otherwise. *)
Definition field (found : groups) (key : string) (dflt : nat)
    (conv : string → result nat) : result nat :=
  match found !! key with
  | Some v => conv v
  | None => Ok dflt
  end.

(** [datetime.datetime.strptime(data_string, '%a %b %d %H:%M:%S %Y')].
    A text that does not match, or not up to its end, raises [ValueError];
    so does one with a character outside ASCII ([UnicodeEncodeError] is a
    [ValueError]), which no part of the pattern accepts. *)
Definition strptime (data_string : string) : result datetime :=
  match re_match format_regex data_string with
  | None => Raise ValueError
  | Some (found, rest) =>
      if negb (String.eqb rest "") then Raise ValueError
      else
        rbind (field found "Y" 1900 int) (λ y,
        rbind (field found "b" 1 (λ v, list_index (str_lower v) a_month)) (λ m,
        rbind (field found "d" 1 int) (λ d,
        rbind (field found "H" 0 int) (λ H,
        rbind (field found "M" 0 int) (λ M,
        rbind (field found "S" 0 int) (λ S,
        make y m d H M S))))))
  end.

End Datetime.

(* ===================================================================== *)
(** * The module [samba_users] *)
(* ===================================================================== *)

Module Samba.

Import Datetime.

(** A parsed line: a [dict] from field names to text. *)
Abbreviation record := (gmap string string).

(** [d[k]] *)
Definition getitem {V} (d : gmap string V) (k : string) : result V :=
  match d !! k with
  | Some v => Ok v
  | None => Raise (KeyError k)
  end.

Definition _STATUS_IGNORED_STARTS : list string :=
  ["Ignoring unknown parameter";
   "Unknown parameter encountered";
   "Processing section";
   "rlimit_max";
   "----------------"].

Definition _LOCKS_IGNORED_STARTS : list string :=
  ["Locked files:";
   "----------------";
   "Pid";
   "No locked files"].

(** The alternatives of [_DAYSOFWEEK] and of [_MONTHOFYEAR]. *)
Definition day_names : list string :=
  ["Mon"; "Tue"; "Wed"; "Thu"; "Fri"; "Sat"; "Sun"].
Definition month_names : list string :=
  ["Jan"; "Feb"; "Mar"; "Apr"; "May"; "Jun";
   "Jul"; "Aug"; "Sep"; "Oct"; "Nov"; "Dec"].

Definition _DAYSOFWEEK : regex := Group "dow" (alts (lit <$> day_names)).
Definition _MONTHOFYEAR : regex := Group "moy" (alts (lit <$> month_names)).
(** ['|'.join('%2d' % value for value in xrange(32))] *)
Definition _DAYOFMONTH : regex :=
  Group "dom" (alts ((λ value, lit (fmt_d 2 value)) <$> seq 0 32)).
Definition _TIMEOFDAY : regex :=
  Group "tod" (seqs [D; D; chr ":"; D; D; chr ":"; D; D]).
Definition _YEAR : regex := Group "year" (seqs [lit "20"; D; D]).

(** [" ".join((...))] *)
Definition _DATE : regex :=
  seqs [_DAYSOFWEEK; chr " "; _MONTHOFYEAR; chr " "; _DAYOFMONTH; chr " ";
        _TIMEOFDAY; chr " "; _YEAR].

Definition not_tab (c : ascii) : bool := negb (ceq TAB c).
Definition not_nl (c : ascii) : bool := negb (ceq NL c).       (* [.] *)
Definition deny_chr (c : ascii) : bool := is_upper c || ceq "_" c.
Definition access_chr (c : ascii) : bool :=
  is_digit c || ceq "x" c || in_range "a" "f" c.
Definition oplock_chr (c : ascii) : bool :=
  is_upper c || ceq "_" c || ceq "+" c.

(** The columns of a lock line, up to the tabs before the date. *)
Definition _LOCK_COLUMNS : regex :=
  seqs [Group "pid" (Plus is_digit); Plus (ceq TAB);
        Group "uid" (Plus is_digit); Plus (ceq TAB);
        Group "denyMode" (Plus deny_chr); Plus uni_isspace;
        Group "access" (Plus access_chr); Plus (ceq TAB);
        Group "rw" (Plus is_upper); Plus (ceq TAB);
        Group "oplock" (Plus oplock_chr); Plus (ceq TAB);
        Group "sharePath" (Plus not_tab); Plus (ceq TAB);
        Group "filename" (Plus not_nl); Plus (ceq TAB)].

Definition _REGEX_LOCKED_FILES : regex := Seq _LOCK_COLUMNS _DATE.

Definition _normdate (datestr : string) : result string :=
  rbind (strptime datestr) (λ dt, Ok (isoformat dt)).

(** The two [print] calls of the parser write to the standard output and
    are left out. *)
Definition _parse_lock_line (index : nat) (line : string)
  : result (option record) :=
  if (String.eqb line "" || String.eqb line (String NL ""))%bool then Ok None
  else if existsb (startswith line) _LOCKS_IGNORED_STARTS then Ok None
  else
    let fixed_line := sub_spaces line in
    match re_match _REGEX_LOCKED_FILES fixed_line with
    | None => Ok None
    | Some (result, _) =>
        rbind (getitem result "dow") (λ dow,
        rbind (getitem result "moy") (λ moy,
        rbind (getitem result "dom") (λ dom,
        rbind (getitem result "tod") (λ tod,
        rbind (getitem result "year") (λ year,
        rbind (_normdate (dow +:+ " " +:+ moy +:+ " " +:+ dom +:+ " "
                          +:+ tod +:+ " " +:+ year)) (λ date,
        let result :=
          foldl (λ r key, delete key r) result
                ["dow"; "moy"; "dom"; "tod"; "year"] in
        let result := <["date" := date]> result in
        rbind (getitem result "sharePath") (λ sharePath,
        Ok (Some (<["share" := basename sharePath]>
                    (delete "sharePath" result))))))))))
    end.

Definition _parse_share_line (index : nat) (line : string)
  : result (option record) :=
  if existsb (startswith line) _STATUS_IGNORED_STARTS then Ok None
  else
    let split_line := split line in
    if bool_decide (split_line = []) then Ok None
    else if bool_decide
              (split_line = ["Service"; "pid"; "machine"; "Connected"; "at"])
    then Ok None
    else
      rbind (Py.index split_line 0) (λ share,
      rbind (Py.index split_line 2) (λ machine,
      rbind (_normdate (join " " (slice_from 3 split_line))) (λ date,
      Ok (Some (<["share" := share]>
               (<["machine" := machine]> {["date" := date]})))))).

(** ** The host and the trace of a run *)

(** What [__salt__['cmd.run_all']] returns. *)
Record rundata : Type := mk_rundata {
  retcode : Z; stdout : string; stderr : string
}.

(** The services of the host, [__salt__] and the file system.  The host
    answers a given question the same way throughout one run. *)
Record host : Type := mk_host {
  (** [__salt__['cmd.run_all'](cmd)] *)
  cmd_run_all : string → rundata;
  (** the pillar entry ['samba_dirs'], when there is one *)
  pillar_samba_dirs : option (list string);
  (** [__salt__['disk.usage']()] *)
  disk_usage : gmap string (gmap string Z);
  (** [tempfile.mkdtemp()] *)
  mkdtemp : string;
  (** the lines of a file once the commands have run, each decoded (utf-8,
      else latin-1, so that every line is some text) *)
  file_lines : string → list string;
  (** [os.path.dirname(sys.argv[0])] *)
  argv0_dirname : string
}.

Inductive event : Type :=
| EvSmbstatus (command : string) (rc : Z)  (* smbstatus ran and exited *)
| EvStat (directory : string) (rc : Z)     (* stat ran and exited *)
| EvRaise (e : exn).                       (* an exception was raised *)

(** The events after which a report cannot be complete: a command of the
    host exited with a status other than 0, or [SmbstatusError] was
    raised. *)
Definition failure (ev : event) : Prop :=
  match ev with
  | EvSmbstatus _ rc | EvStat _ rc => rc ≠ 0%Z
  | EvRaise (SmbstatusError _) => True
  | EvRaise _ => False
  end.

(** A computation: the events of the run, in order, and how it ended. *)
Definition M (A : Type) : Type := (list event * result A)%type.

Definition trace {A} (m : M A) : list event := m.1.
Definition outcome {A} (m : M A) : result A := m.2.

(** A computation in which every failure ends the computation with
    [SmbstatusError]. *)
Definition fails_closed {A} (m : M A) : Prop :=
  ∀ ev, ev ∈ trace m → failure ev →
        ∃ msg, outcome m = Raise (SmbstatusError msg).

#[global] Instance M_ret : MRet M := λ A a, ([], Ok a).
#[global] Instance M_bind : MBind M := λ A B f m,
  match m with
  | (l, Ok a) => let m' := f a in (l ++ m'.1, m'.2)
  | (l, Raise e) => (l, Raise e)
  end.

Definition tell (ev : event) : M unit := ([ev], Ok tt).
Definition raise {A} (e : exn) : M A := ([EvRaise e], Raise e).

(** A call of a function that may raise and does nothing else. *)
Definition call {A} (r : result A) : M A :=
  match r with
  | Ok a => mret a
  | Raise e => raise e
  end.

(** [try: body / except ...: handler], followed by [rest] when the body
    ends without an exception; [handler e] is [None] when no clause is for
    [e], which then goes on to the caller. *)
Definition try_except {A B} (body : M A) (handler : exn → option (M B))
    (rest : A → M B) : M B :=
  match body with
  | (l, Ok a) => let m' := rest a in (l ++ m'.1, m'.2)
  | (l, Raise e) =>
      match handler e with
      | Some m' => (l ++ m'.1, m'.2)
      | None => (l, Raise e)
      end
  end.

(** [for x in l: acc = step(acc, x)], where the step may raise *)
Fixpoint for_fold {A S} (step : S → A → M S) (acc : S) (l : list A) : M S :=
  match l with
  | [] => mret acc
  | x :: l' => acc' ← step acc x; for_fold step acc' l'
  end.

(** ** The command runner *)

Definition _SMBSTATUS : string := "/usr/bin/smbstatus".

(** ['{executable} --{command} -d 0 > {tempfile}'.format(...)] *)
Definition _SMBSTATUS_COMMAND (executable command tempfile : string)
  : string :=
  executable +:+ " --" +:+ command +:+ " -d 0 > " +:+ tempfile.

(** Returns [rundata['stdout']], the lines read back from the file, which
    is all its caller uses.  [shutil.rmtree] has no result. *)
Definition _smbstatus_cmd (h : host) (command : string) (test : bool)
  : M (list string) :=
  '(tempfname, rundata) ←
    (if negb test then
       let tempdir := mkdtemp h in
       let tempfname := path_join tempdir ("smbstatus." +:+ command) in
       let rundata :=
         cmd_run_all h (_SMBSTATUS_COMMAND _SMBSTATUS command tempfname) in
       _ ← tell (EvSmbstatus command (retcode rundata));
       mret (tempfname, rundata)
     else
       let tempfname :=
         path_join (argv0_dirname h) ("sample.smbstatus." +:+ command) in
       mret (tempfname, mk_rundata 0 "" ""));
  if bool_decide (retcode rundata ≠ 0%Z)
  then raise (SmbstatusError (stderr rundata))
  else mret (file_lines h tempfname).

(** ** The generator of records *)

(** One turn of the loop of [_smbstatus_data]: [None] for [continue],
    the pair the generator yields otherwise. *)
Definition data_step (line_parser : nat → string → result (option record))
    (index : nat) (line : string) : M (option (string * record)) :=
  value ← call (line_parser index line);
  match value with
  | None => mret None
  | Some value =>
      _ ← match value !! "date" with
          | Some date =>
              if bool_decide (String.length date = 19) then mret tt
              else raise AssertionError
          | None => mret tt
          end;
      share ← call (getitem value "share");       (* value.pop('share') *)
      mret (Some (share, delete "share" value))
  end.

Fixpoint data_loop (line_parser : nat → string → result (option record))
    (index : nat) (lines : list string) : M (list (string * record)) :=
  match lines with
  | [] => mret []
  | line :: lines' =>
      y ← data_step line_parser index line;
      ys ← data_loop line_parser (S index) lines';
      mret (option_list y ++ ys)
  end.

(** The pairs the generator yields when it is read to its end, which is
    how [stats] reads it; nothing runs before the first one is asked for. *)
Definition _smbstatus_data (h : host) (command : string)
    (line_parser : nat → string → result (option record)) (test : bool)
  : M (list (string * record)) :=
  lines ← _smbstatus_cmd h command test;
  data_loop line_parser 0 lines.

(** ** The report *)

Record share_item : Type := mk_share_item {
  machines : list record; locked_files : list record
}.

Definition _share_item_skel : share_item := mk_share_item [] [].

(** [used_shares[share]] of the [defaultdict]: the entry, made from the
    skeleton when the key is new. *)
Definition dd_get (used_shares : gmap string share_item) (share : string)
  : share_item :=
  default _share_item_skel (used_shares !! share).

(** [used_shares[share]['machines'].append(item)] *)
Definition add_machine (used_shares : gmap string share_item)
    (x : string * record) : gmap string share_item :=
  let it := dd_get used_shares x.1 in
  <[x.1 := mk_share_item (machines it ++ [x.2]) (locked_files it)]>
    used_shares.

(** [used_shares[share]['locked_files'].append(item)] *)
Definition add_locked_file (used_shares : gmap string share_item)
    (x : string * record) : gmap string share_item :=
  let it := dd_get used_shares x.1 in
  <[x.1 := mk_share_item (machines it) (locked_files it ++ [x.2])]>
    used_shares.

Record mount_space : Type := mk_mount_space {
  used : Z; available : Z; total : Z
}.

Record avail_space : Type := mk_avail_space {
  mount_points : gmap string string;
  space_info : gmap string mount_space       (* the key ['disk_usage'] *)
}.

(** ** The disk-usage collector *)

Definition stat_step (h : host) (directory_to_mount_point : gmap string string)
    (directory : string) : M (gmap string string) :=
  let stat_data := cmd_run_all h ("stat -c '%m' " +:+ directory) in
  _ ← tell (EvStat directory (retcode stat_data));
  if bool_decide (retcode stat_data ≠ 0%Z)
  then raise (SmbstatusError (stderr stat_data))
  else mret (<[directory := strip (stdout stat_data)]>
               directory_to_mount_point).

Definition space_step (space_data : gmap string (gmap string Z))
    (space_info : gmap string mount_space) (mount_point : string)
  : M (gmap string mount_space) :=
  single_info ← call (getitem space_data mount_point);
  u ← call (getitem single_info "used");
  a ← call (getitem single_info "available");
  t ← call (getitem single_info "1K-blocks");
  mret (<[mount_point := mk_mount_space u a t]> space_info).

(** The first loop of [_avail_space], over the configured directories. *)
Definition resolve_mount_points (h : host) : M (gmap string string) :=
  let samba_dirs := default ["/mnt/samba"] (pillar_samba_dirs h) in
  for_fold (stat_step h) ∅ samba_dirs.

(** The [set] of mount points is walked in the order of [elements]: no
    order is promised, by Python or here. *)
Definition _avail_space (h : host) : M avail_space :=
  directory_to_mount_point ← resolve_mount_points h;
  let space_data := disk_usage h in
  let single_mount_points : gset string :=
    map_img directory_to_mount_point in
  space_info ←
    for_fold (space_step space_data) ∅ (elements single_mount_points);
  mret (mk_avail_space directory_to_mount_point space_info).

(** ** The entry point *)

Inductive value : Type :=
| VBool (b : bool)
| VStatus (used_shares : gmap string share_item)
| VAvail (a : avail_space).

Abbreviation report := (gmap string value).

(** The body of the [try] of [stats]: the two generators are read one
    after the other, then the disk usage is collected. *)
Definition stats_try (h : host) (test : bool)
  : M (gmap string share_item * avail_space) :=
  let used_shares_gen := _smbstatus_data h "shares" _parse_share_line test in
  let locked_files_gen := _smbstatus_data h "locks" _parse_lock_line test in
  let used_shares : gmap string share_item := ∅ in
  shares ← used_shares_gen;
  let used_shares := foldl add_machine used_shares shares in
  locks ← locked_files_gen;
  let used_shares := foldl add_locked_file used_shares locks in
  avail_space ← _avail_space h;
  mret (used_shares, avail_space).

Definition stats (h : host) (test : bool) : M report :=
  try_except
    (stats_try h test)
    (λ e, match e with
          | SmbstatusError _ => Some (mret {["in_error" := VBool true]})
          | _ => None
          end)
    (λ '(used_shares, avail_space),
       mret (<["in_error" := VBool false]>
            (<["status" := VStatus used_shares]>
            {["avail_space" := VAvail avail_space]}))).

End Samba.

Import Datetime Samba.

(* ===================================================================== *)
(** * Shapes of text and sample hosts, for the statements *)
(* ===================================================================== *)

(** [has_shape ps s]: [s] has one character per class of [ps], in order. *)
Fixpoint has_shape (ps : list (ascii → bool)) (s : string) : bool :=
  match ps, s with
  | [], EmptyString => true
  | p :: ps', String c s' => p c && has_shape ps' s'
  | _, _ => false
  end.

(** [YYYY-MM-DDTHH:MM:SS] *)
Definition iso_shape : string → bool :=
  has_shape [is_digit; is_digit; is_digit; is_digit; ceq "-";
             is_digit; is_digit; ceq "-"; is_digit; is_digit; ceq "T";
             is_digit; is_digit; ceq ":"; is_digit; is_digit; ceq ":";
             is_digit; is_digit].

(** [dd:dd:dd], what [_TIMEOFDAY] takes. *)
Definition tod_shape : string → bool :=
  has_shape [is_digit; is_digit; ceq ":"; is_digit; is_digit; ceq ":";
             is_digit; is_digit].

(** [20dd], what [_YEAR] takes. *)
Definition year20_shape : string → bool :=
  has_shape [ceq "2"; ceq "0"; is_digit; is_digit].

(** The fields a stored lock record has. *)
Definition lock_fields : gset string :=
  {["pid"; "uid"; "denyMode"; "access"; "rw"; "oplock"; "filename"; "date"]}.

(** The fields a stored connection record has. *)
Definition connection_fields : gset string := {["machine"; "date"]}.

(** An entry of [used_shares] whose connection records all have [P] and
    whose lock records all have [Q]. *)
Definition items_ok (P Q : record → Prop) (it : share_item) : Prop :=
  Forall P (machines it) ∧ Forall Q (locked_files it).

(** The date fields as the specification words them: a weekday and a month
    abbreviation, a day of the month from 1 to 31 with or without a blank
    before it, a time [HH:MM:SS], and any year of four digits. *)
Definition spec_dom (s : string) : bool :=
  existsb (λ d, String.eqb s (str_of_nat d)
                || String.eqb s (String SP (str_of_nat d))) (seq 1 31).

Definition spec_date_fields (dow moy dom tod year : string) : bool :=
  bool_decide (dow ∈ day_names) && bool_decide (moy ∈ month_names)
  && spec_dom dom && tod_shape tod
  && has_shape [is_digit; is_digit; is_digit; is_digit] year.

(** [double_blank s]: two blanks follow each other somewhere in [s]. *)
Fixpoint double_blank (s : string) : bool :=
  match s with
  | String a (String b _ as t) => (ceq SP a && ceq SP b) || double_blank t
  | _ => false
  end.

(** [str_forall p s]: every character of [s] is in the class [p]. *)
Fixpoint str_forall (p : ascii → bool) (s : string) : bool :=
  match s with
  | EmptyString => true
  | String c s' => p c && str_forall p s'
  end.

Definition not_slash (c : ascii) : bool := negb (ceq "/" c).
Definition not_space (c : ascii) : bool := negb (uni_isspace c).

(** A line made of columns, the five date fields with one blank between
    them, and whatever follows the year. *)
Definition lock_text (cols dow moy dom tod year rest : string) : string :=
  cols +:+ dow +:+ " " +:+ moy +:+ " " +:+ dom +:+ " " +:+ tod +:+ " "
  +:+ year +:+ rest.

Module Examples.

Definition nl : string := String NL "".
Definition tab : string := String TAB "".

(** A host on which every command succeeds and prints nothing, the one
    configured directory is on [/mnt], and the disk usage knows of no
    mount point. *)
Definition host_missing_mount : host := {|
  cmd_run_all := λ cmd,
    if String.prefix "stat" cmd then mk_rundata 0 ("/mnt" +:+ nl) ""
    else mk_rundata 0 "" "";
  pillar_samba_dirs := None;
  disk_usage := ∅;
  mkdtemp := "/tmp/tmpAbCdEf";
  file_lines := λ _, [];
  argv0_dirname := "."
|}.

(** A host on which [smbstatus --shares] exits with status 1. *)
Definition host_shares_fail : host := {|
  cmd_run_all := λ cmd,
    if String.prefix "/usr/bin/smbstatus --shares" cmd
    then mk_rundata 1 "" "smbstatus: failed"
    else mk_rundata 0 "" "";
  pillar_samba_dirs := None;
  disk_usage := ∅;
  mkdtemp := "/tmp/tmpAbCdEf";
  file_lines := λ _, [];
  argv0_dirname := "."
|}.

Definition share_line : string :=
  "public       1234   192.168.0.5   Wed Jan  7 14:23:59 2015" +:+ nl.
Definition lock_line : string :=
  "1234  1000  DENY_NONE  0x120089  RDONLY  NONE  /srv/public  "
  +:+ "notes.txt  Sat Jan 17 14:23:59 2015" +:+ nl.

(** A host with one connection and one lock on the share [public], and
    two configured directories on the same mount point. *)
Definition host_public : host := {|
  cmd_run_all := λ cmd,
    if String.prefix "stat" cmd then mk_rundata 0 ("/mnt" +:+ nl) ""
    else mk_rundata 0 "" "";
  pillar_samba_dirs := Some ["/mnt/a"; "/mnt/b"];
  disk_usage :=
    {["/mnt" := {["used" := 10%Z; "available" := 90%Z;
                  "1K-blocks" := 100%Z]}]};
  mkdtemp := "/tmp/tmpAbCdEf";
  file_lines := λ f,
    if String.eqb f "/tmp/tmpAbCdEf/smbstatus.shares" then [share_line]
    else if String.eqb f "/tmp/tmpAbCdEf/smbstatus.locks" then [lock_line]
    else [];
  argv0_dirname := "."
|}.

(** What [stats] reports on [host_public]. *)
Definition connection_public : record :=
  {["machine" := "192.168.0.5"; "date" := "2015-01-07T14:23:59"]}.
Definition lock_public : record :=
  {["pid" := "1234"; "uid" := "1000"; "denyMode" := "DENY_NONE";
    "access" := "0x120089"; "rw" := "RDONLY"; "oplock" := "NONE";
    "filename" := "notes.txt"; "date" := "2015-01-17T14:23:59"]}.
Definition status_public : gmap string share_item :=
  {["public" := mk_share_item [connection_public] [lock_public]]}.
Definition avail_public : avail_space :=
  mk_avail_space {["/mnt/a" := "/mnt"; "/mnt/b" := "/mnt"]}
                 {["/mnt" := mk_mount_space 10 90 100]}.
Definition report_public : report :=
  <["in_error" := VBool false]>
    (<["status" := VStatus status_public]>
       {["avail_space" := VAvail avail_public]}).

(** The groups of the match of [lock_line]. *)
Definition lock_groups : gmap string string :=
  {["pid" := "1234"; "uid" := "1000"; "denyMode" := "DENY_NONE";
    "access" := "0x120089"; "rw" := "RDONLY"; "oplock" := "NONE";
    "sharePath" := "/srv/public"; "filename" := "notes.txt";
    "dow" := "Sat"; "moy" := "Jan"; "dom" := "17"; "tod" := "14:23:59";
    "year" := "2015"]}.

(** The columns of [lock_line] once its runs of blanks are tabs. *)
Definition lock_columns : string :=
  "1234" +:+ tab +:+ "1000" +:+ tab +:+ "DENY_NONE" +:+ tab
  +:+ "0x120089" +:+ tab +:+ "RDONLY" +:+ tab +:+ "NONE" +:+ tab
  +:+ "/srv/public" +:+ tab +:+ "notes.txt" +:+ tab.

End Examples.

(** The answer of the host to the [stat] query of [_avail_space] for a
    directory, and to the [smbstatus] command of [_smbstatus_cmd]. *)
Definition stat_of (h : host) (directory : string) : rundata :=
  cmd_run_all h ("stat -c '%m' " +:+ directory).

Definition smbstatus_of (h : host) (command : string) : rundata :=
  cmd_run_all h
    (_SMBSTATUS_COMMAND _SMBSTATUS command
       (path_join (mkdtemp h) ("smbstatus." +:+ command))).

(** A computation whose trace has an [EvRaise e] exactly when it ends with
    [Raise e]. *)
Definition well_traced {A} (m : M A) : Prop :=
  ∀ e, EvRaise e ∈ trace m ↔ outcome m = Raise e.

(** A computation all of whose events have [P]. *)
Definition traced {A} (P : event → Prop) (m : M A) : Prop :=
  Forall P (trace m).

Definition not_smbstatus (ev : event) : Prop :=
  match ev with EvSmbstatus _ _ => False | _ => True end.

(** The records yielded for a share, in the order they were yielded. *)
Definition records_of (name : string) (l : list (string * record))
  : list record :=
  (filter (λ x, x.1 = name) l).*2.

(** A host on which the [stat] query of the second configured directory
    fails. *)
Definition host_stat_fail : host := {|
  cmd_run_all := λ cmd,
    if String.eqb cmd "stat -c '%m' /mnt/b"
    then mk_rundata 1 "" "stat: cannot stat '/mnt/b'"
    else mk_rundata 0 "/mnt" "";
  pillar_samba_dirs := Some ["/mnt/a"; "/mnt/b"; "/mnt/c"];
  disk_usage := ∅;
  mkdtemp := "/tmp/tmpAbCdEf";
  file_lines := λ _, [];
  argv0_dirname := "."
|}.



(* ===================================================================== *)
(** * Text lemmas *)
(* ===================================================================== *)

Section Text.

Lemma str_app_cons c (s t : string) : String c s +:+ t = String c (s +:+ t).
Proof. reflexivity. Qed.

Lemma str_app_nil_l (s : string) : "" +:+ s = s.
Proof. reflexivity. Qed.

Lemma str_app_nil_r (s : string) : s +:+ "" = s.
Proof. induction s as [|c s IH]; [done|]. by rewrite str_app_cons, IH. Qed.

Lemma str_app_assoc (s t u : string) : (s +:+ t) +:+ u = s +:+ (t +:+ u).
Proof. induction s as [|c s IH]; [done|]. by rewrite !str_app_cons, IH. Qed.

Lemma str_length_app (s t : string) :
  String.length (s +:+ t) = String.length s + String.length t.
Proof. induction s as [|c s IH]; [done|]. rewrite str_app_cons. simpl. lia. Qed.

Lemma substring_0_app (s t : string) :
  String.substring 0 (String.length s) (s +:+ t) = s.
Proof.
  induction s as [|c s IH].
  - simpl. by destruct t.
  - rewrite str_app_cons. simpl. by rewrite IH.
Qed.

Lemma consumed_app (pre s' : string) : consumed (pre +:+ s') s' = pre.
Proof.
  unfold consumed. rewrite str_length_app.
  replace (String.length pre + String.length s' - String.length s')
    with (String.length pre) by lia.
  apply substring_0_app.
Qed.

End Text.

(* ===================================================================== *)
(** * The matcher finds exactly the matches *)
(* ===================================================================== *)

Section Matcher.

Context {A : Type}.
Implicit Types (k : string → groups → option A) (r : regex).

(** A match consumes a prefix of the text. *)
Lemma Matches_prefix r s g s' g' :
  Matches r s g s' g' → ∃ pre, s = pre +:+ s'.
Proof.
  induction 1 as
    [s g|p c s g Hp|p c s g Hp|p c s s' g Hp _ [pre ->]
    |r1 r2 s g s1 g1 s2 g2 _ [p1 ->] _ [p2 ->]
    |r1 r2 s g s' g' _ IH|r1 r2 s g s' g' _ IH|n r s g s' g' _ IH];
    try done.
  - by exists "".
  - by exists (String c "").
  - by exists (String c "").
  - by exists (String c pre).
  - exists (p1 +:+ p2). by rewrite str_app_assoc.
Qed.

Lemma star_k_sound p s g (kk : string → option A) x :
  star_k p s kk = Some x →
  kk s = Some x ∨ ∃ s', Matches (Plus p) s g s' g ∧ kk s' = Some x.
Proof.
  induction s as [|c s IH]; simpl; [by left|].
  destruct (p c) eqn:Hp; [|by left].
  destruct (star_k p s kk) as [y|] eqn:Hs; [|by left].
  intros [= ->]. right.
  destruct (IH eq_refl) as [Hk|(s' & Hm & Hk)].
  - exists s. split; [by constructor|done].
  - exists s'. split; [by apply M_PlusS|done].
Qed.

(** Soundness: an answer of the matcher comes from a match of the pattern
    followed by an answer of the continuation. *)
Lemma rmatch_sound r : ∀ s g k x,
  rmatch r s g k = Some x →
  ∃ s' g', Matches r s g s' g' ∧ k s' g' = Some x.
Proof.
  induction r as [|p|p|r1 IH1 r2 IH2|r1 IH1 r2 IH2|n r IH];
    intros s g k x; simpl.
  - intros Hk. exists s, g. split; [constructor|done].
  - destruct s as [|c s]; [done|]. destruct (p c) eqn:Hp; [|done].
    intros Hk. exists s, g. split; [by constructor|done].
  - destruct s as [|c s]; [done|]. destruct (p c) eqn:Hp; [|done].
    intros Hk. apply (star_k_sound p s g) in Hk as [Hk|(s' & Hm & Hk)].
    + exists s, g. split; [by constructor|done].
    + exists s', g. split; [by apply M_PlusS|done].
  - intros Hk. apply IH1 in Hk as (s1 & g1 & Hm1 & Hk).
    apply IH2 in Hk as (s2 & g2 & Hm2 & Hk).
    exists s2, g2. split; [by econstructor|done].
  - destruct (rmatch r1 s g k) as [y|] eqn:H1.
    + intros [= ->]. apply IH1 in H1 as (s' & g' & Hm & Hk).
      exists s', g'. split; [by apply M_AltL|done].
    + intros H2. apply IH2 in H2 as (s' & g' & Hm & Hk).
      exists s', g'. split; [by apply M_AltR|done].
  - intros Hk. apply IH in Hk as (s' & g' & Hm & Hk).
    exists s', (<[n := consumed s s']> g'). split; [by constructor|done].
Qed.

Lemma star_k_zero p s (kk : string → option A) :
  is_Some (kk s) → is_Some (star_k p s kk).
Proof.
  intros Hk. destruct s as [|c s]; simpl; [done|].
  destruct (p c); [|done]. by destruct (star_k p s kk).
Qed.

(** Completeness: where the pattern has a match after which the
    continuation answers, whatever the groups, the matcher answers. *)
Lemma rmatch_complete r s g s' g' :
  Matches r s g s' g' →
  ∀ g0 k, (∀ g1, is_Some (k s' g1)) → is_Some (rmatch r s g0 k).
Proof.
  induction 1 as
    [s g|p c s g Hp|p c s g Hp|p c s s' g Hp Hm IH
    |r1 r2 s g s1 g1 s2 g2 _ IH1 _ IH2
    |r1 r2 s g s' g' _ IH|r1 r2 s g s' g' _ IH|n r s g s' g' _ IH];
    intros g0 k Hk; simpl.
  - done.
  - by rewrite Hp.
  - rewrite Hp. by apply star_k_zero.
  - rewrite Hp. specialize (IH g0 k Hk). simpl in IH.
    destruct s as [|c' s]; [by destruct IH|]. simpl.
    destruct (p c'); [|by destruct IH].
    by destruct (star_k p s (λ t, k t g0)).
  - apply IH1. intros g3. by apply IH2.
  - specialize (IH g0 k Hk). by destruct (rmatch r1 s g0 k).
  - destruct (rmatch r1 s g0 k); [done|]. by apply IH.
  - apply IH. intros g3. apply Hk.
Qed.

End Matcher.

Section MatchesFacts.

(** A match does not look at what follows the text it consumes. *)
Lemma Matches_frame r s g s' g' t :
  Matches r s g s' g' → Matches r (s +:+ t) g (s' +:+ t) g'.
Proof.
  induction 1 as
    [s g|p c s g Hp|p c s g Hp|p c s s' g Hp Hm IH
    |r1 r2 s g s1 g1 s2 g2 _ IH1 _ IH2
    |r1 r2 s g s' g' _ IH|r1 r2 s g s' g' _ IH|n r s g s' g' Hm IH].
  - constructor.
  - rewrite str_app_cons. by constructor.
  - rewrite str_app_cons. by constructor.
  - rewrite str_app_cons. by apply M_PlusS.
  - by econstructor.
  - by apply M_AltL.
  - by apply M_AltR.
  - destruct (Matches_prefix _ _ _ _ _ Hm) as [pre ->].
    pose proof (M_Group n r _ _ _ _ IH) as HG.
    rewrite str_app_assoc, !consumed_app in *. exact HG.
Qed.

(** A pattern without groups leaves the groups as they are. *)
Lemma Matches_no_groups r s g s' g' :
  Matches r s g s' g' → group_names r = ∅ → g' = g.
Proof.
  induction 1 as
    [s g|p c s g Hp|p c s g Hp|p c s s' g Hp Hm IH
    |r1 r2 s g s1 g1 s2 g2 _ IH1 _ IH2
    |r1 r2 s g s' g' _ IH|r1 r2 s g s' g' _ IH|n r s g s' g' Hm IH];
    simpl; intros Hn; try done.
  - rewrite IH2, IH1; [done|set_solver..].
  - apply IH; set_solver.
  - apply IH; set_solver.
  - set_solver.
Qed.

(** With no group under an alternation, a match sets every group of the
    pattern. *)
Lemma Matches_dom r s g s' g' :
  Matches r s g s' g' → groups_definite r = true →
  dom g' = dom g ∪ group_names r.
Proof.
  induction 1 as
    [s g|p c s g Hp|p c s g Hp|p c s s' g Hp Hm IH
    |r1 r2 s g s1 g1 s2 g2 _ IH1 _ IH2
    |r1 r2 s g s' g' Hm IH|r1 r2 s g s' g' Hm IH|n r s g s' g' Hm IH];
    simpl; intros Hd.
  - by rewrite (right_id_L ∅ (∪)).
  - by rewrite (right_id_L ∅ (∪)).
  - by rewrite (right_id_L ∅ (∪)).
  - by rewrite (right_id_L ∅ (∪)).
  - apply andb_true_iff in Hd as [Hd1 Hd2].
    rewrite IH2, IH1 by done. by rewrite (assoc_L (∪)).
  - apply andb_true_iff in Hd
      as [Hd1%bool_decide_eq_true Hd2%bool_decide_eq_true].
    rewrite (Matches_no_groups _ _ _ _ _ Hm Hd1), Hd1, Hd2.
    by rewrite !(right_id_L ∅ (∪)).
  - apply andb_true_iff in Hd
      as [Hd1%bool_decide_eq_true Hd2%bool_decide_eq_true].
    rewrite (Matches_no_groups _ _ _ _ _ Hm Hd2), Hd1, Hd2.
    by rewrite !(right_id_L ∅ (∪)).
  - rewrite dom_insert_L, IH by done.
    rewrite (assoc_L (∪)), (comm_L (∪) {[n]}), <- (assoc_L (∪)).
    done.
Qed.

Lemma Matches_lit t : ∀ s g s' g',
  Matches (lit t) s g s' g' → s = t +:+ s' ∧ g' = g.
Proof.
  induction t as [|c t IH]; intros s g s' g' Hm; simpl in Hm.
  - by inversion Hm.
  - inversion Hm as [| | | |r1 r2 s0 g0 s1 g1 s2 g2 H1 H2| | |]; subst.
    inversion H1 as [|p c' s0 g0 Hc| | | | | |]; subst.
    apply IH in H2 as [-> ->].
    apply Ascii.eqb_eq in Hc as ->. done.
Qed.

Lemma lit_Matches t s g : Matches (lit t) (t +:+ s) g s g.
Proof.
  induction t as [|c t IH]; simpl; [constructor|].
  rewrite str_app_cons. econstructor; [|exact IH].
  constructor. apply Ascii.eqb_refl.
Qed.

(** An alternation of literals matches one of them. *)
Lemma Matches_alts_lit ts : ∀ s g s' g',
  ts ≠ [] → Matches (alts (lit <$> ts)) s g s' g' →
  ∃ t, t ∈ ts ∧ s = t +:+ s' ∧ g' = g.
Proof.
  induction ts as [|t ts IH]; intros s g s' g' Hne Hm; [done|].
  destruct ts as [|t' ts].
  - simpl in Hm. apply Matches_lit in Hm as [-> ->].
    exists t. split; [apply list_elem_of_here|done].
  - change (alts (lit <$> t :: t' :: ts))
      with (Alt (lit t) (alts (lit <$> t' :: ts))) in Hm.
    inversion Hm as [| | | | |r1 r2 s0 g0 s1 g1 H1|r1 r2 s0 g0 s1 g1 H1|];
      subst.
    + apply Matches_lit in H1 as [-> ->].
      exists t. split; [apply list_elem_of_here|done].
    + apply IH in H1 as (t0 & Hin & -> & ->); [|done].
      exists t0. split; [by apply list_elem_of_further|done].
Qed.

Lemma alts_lit_Matches ts t s g :
  t ∈ ts → Matches (alts (lit <$> ts)) (t +:+ s) g s g.
Proof.
  induction ts as [|t0 ts IH]; intros Hin; [by apply elem_of_nil in Hin|].
  destruct ts as [|t' ts].
  - apply list_elem_of_singleton in Hin as ->. apply lit_Matches.
  - change (alts (lit <$> t0 :: t' :: ts))
      with (Alt (lit t0) (alts (lit <$> t' :: ts))).
    apply elem_of_cons in Hin as [->|Hin].
    + apply M_AltL, lit_Matches.
    + by apply M_AltR, IH.
Qed.

End MatchesFacts.

(* ===================================================================== *)
(** * Computations: traces and outcomes *)
(* ===================================================================== *)

Section Computations.

Context {A B : Type}.

Lemma outcome_bind (m : M A) (f : A → M B) :
  outcome (m ≫= f) =
  match outcome m with Ok a => outcome (f a) | Raise e => Raise e end.
Proof. by destruct m as [l [a|e]]. Qed.

Lemma trace_bind (m : M A) (f : A → M B) :
  trace (m ≫= f) =
  trace m ++ match outcome m with Ok a => trace (f a) | Raise _ => [] end.
Proof. destruct m as [l [a|e]]; simpl; [done|]. by rewrite app_nil_r. Qed.

Lemma outcome_bind_Ok (m : M A) (f : A → M B) b :
  outcome (m ≫= f) = Ok b ↔ ∃ a, outcome m = Ok a ∧ outcome (f a) = Ok b.
Proof.
  rewrite outcome_bind. destruct (outcome m) as [a|e]; split.
  - intros H. by exists a.
  - by intros (a' & [= <-] & H).
  - done.
  - by intros (a' & [=] & _).
Qed.

Lemma outcome_call (r : result A) : outcome (call r) = r.
Proof. by destruct r. Qed.

Lemma outcome_try_except (body : M A) handler (rest : A → M B) :
  outcome (try_except body handler rest) =
  match outcome body with
  | Ok a => outcome (rest a)
  | Raise e => match handler e with
               | Some m' => outcome m'
               | None => Raise e
               end
  end.
Proof. destruct body as [l [a|e]]; simpl; [done|]. by destruct (handler e). Qed.

Lemma trace_try_except (body : M A) handler (rest : A → M B) :
  trace (try_except body handler rest) =
  trace body ++
  match outcome body with
  | Ok a => trace (rest a)
  | Raise e => match handler e with
               | Some m' => trace m'
               | None => []
               end
  end.
Proof.
  destruct body as [l [a|e]]; simpl; [done|].
  destruct (handler e); simpl; [done|]. by rewrite app_nil_r.
Qed.

End Computations.

(** ** Failures end the run with [SmbstatusError] *)

Section FailsClosed.

Lemma fails_closed_ret {A} (a : A) : fails_closed (mret a).
Proof. intros ev Hin. by apply elem_of_nil in Hin. Qed.

Lemma fails_closed_raise {A} e : fails_closed (raise (A:=A) e).
Proof.
  intros ev Hin%list_elem_of_singleton Hf. subst ev.
  destruct e; simpl in Hf; try done. by eexists.
Qed.

Lemma fails_closed_call {A} (r : result A) : fails_closed (call r).
Proof. destruct r; [apply fails_closed_ret|apply fails_closed_raise]. Qed.

Lemma fails_closed_bind {A B} (m : M A) (f : A → M B) :
  fails_closed m → (∀ a, fails_closed (f a)) → fails_closed (m ≫= f).
Proof.
  intros Hm Hf ev. rewrite trace_bind, outcome_bind, elem_of_app.
  intros [Hin|Hin] Hfail.
  - destruct (Hm ev Hin Hfail) as [msg ->]. by eexists.
  - destruct (outcome m) as [a|e] eqn:Ho.
    + by apply (Hf a ev).
    + by apply elem_of_nil in Hin.
Qed.

Lemma fails_closed_for_fold {A S} (step : S → A → M S) l :
  (∀ acc x, fails_closed (step acc x)) →
  ∀ acc, fails_closed (for_fold step acc l).
Proof.
  intros Hs. induction l as [|x l IH]; intros acc; simpl.
  - apply fails_closed_ret.
  - apply fails_closed_bind; [apply Hs|apply IH].
Qed.

Lemma fails_closed_smbstatus_cmd h command test :
  fails_closed (_smbstatus_cmd h command test).
Proof.
  unfold _smbstatus_cmd. destruct test; simpl.
  - intros ev Hin. by apply elem_of_nil in Hin.
  - set (rd := cmd_run_all h _).
    destruct (bool_decide (retcode rd ≠ 0%Z)) eqn:Hrc; simpl.
    + intros ev _ _. by eexists.
    + apply bool_decide_eq_false in Hrc.
      intros ev Hin%list_elem_of_singleton Hf. subst ev.
      simpl in Hf. by destruct Hrc.
Qed.

Lemma fails_closed_data_step parser index line :
  fails_closed (data_step parser index line).
Proof.
  unfold data_step. apply fails_closed_bind; [apply fails_closed_call|].
  intros [v|]; [|apply fails_closed_ret].
  apply fails_closed_bind.
  - destruct (v !! "date") as [d|]; [|apply fails_closed_ret].
    destruct (bool_decide _);
      [apply fails_closed_ret|apply fails_closed_raise].
  - intros _. apply fails_closed_bind; [apply fails_closed_call|].
    intros share. apply fails_closed_ret.
Qed.

Lemma fails_closed_data_loop parser lines :
  ∀ index, fails_closed (data_loop parser index lines).
Proof.
  induction lines as [|line lines IH]; intros index; simpl.
  - apply fails_closed_ret.
  - apply fails_closed_bind; [apply fails_closed_data_step|].
    intros y. apply fails_closed_bind; [apply IH|].
    intros ys. apply fails_closed_ret.
Qed.

Lemma fails_closed_smbstatus_data h command parser test :
  fails_closed (_smbstatus_data h command parser test).
Proof.
  apply fails_closed_bind; [apply fails_closed_smbstatus_cmd|].
  intros lines. apply fails_closed_data_loop.
Qed.

Lemma fails_closed_stat_step h acc directory :
  fails_closed (stat_step h acc directory).
Proof.
  unfold stat_step. set (rd := cmd_run_all h _).
  destruct (bool_decide (retcode rd ≠ 0%Z)) eqn:Hrc; simpl.
  - intros ev _ _. by eexists.
  - apply bool_decide_eq_false in Hrc.
    intros ev Hin%list_elem_of_singleton Hf. subst ev.
    simpl in Hf. by destruct Hrc.
Qed.

Lemma fails_closed_space_step sd acc mount_point :
  fails_closed (space_step sd acc mount_point).
Proof.
  unfold space_step.
  repeat (apply fails_closed_bind; [apply fails_closed_call|intros ?]).
  apply fails_closed_ret.
Qed.

Lemma fails_closed_avail_space h : fails_closed (_avail_space h).
Proof.
  unfold _avail_space, resolve_mount_points. apply fails_closed_bind.
  - apply fails_closed_for_fold. apply fails_closed_stat_step.
  - intros d2m. apply fails_closed_bind.
    + apply fails_closed_for_fold. apply fails_closed_space_step.
    + intros si. apply fails_closed_ret.
Qed.

End FailsClosed.

(* ===================================================================== *)
(** * The report of [stats] *)
(* ===================================================================== *)

Section Stats.

Lemma fails_closed_stats_try h test : fails_closed (stats_try h test).
Proof.
  unfold stats_try.
  apply fails_closed_bind; [apply fails_closed_smbstatus_data|intros su].
  apply fails_closed_bind; [apply fails_closed_smbstatus_data|intros sl].
  apply fails_closed_bind; [apply fails_closed_avail_space|intros a].
  apply fails_closed_ret.
Qed.

(** The events of [stats] are those of the body of its [try]. *)
Lemma trace_stats h test : trace (stats h test) = trace (stats_try h test).
Proof.
  unfold stats. rewrite trace_try_except.
  destruct (outcome (stats_try h test)) as [[u a]|e]; simpl.
  - apply app_nil_r.
  - destruct e; apply app_nil_r.
Qed.

(** What [stats] returns, from how the body of its [try] ends. *)
Lemma outcome_stats h test :
  outcome (stats h test) =
  match outcome (stats_try h test) with
  | Ok (used_shares, avail_space) =>
      Ok (<["in_error" := VBool false]>
         (<["status" := VStatus used_shares]>
         {["avail_space" := VAvail avail_space]}))
  | Raise (SmbstatusError _) => Ok {["in_error" := VBool true]}
  | Raise e => Raise e
  end.
Proof.
  unfold stats. rewrite outcome_try_except.
  destruct (outcome (stats_try h test)) as [[u a]|e]; [done|].
  by destruct e.
Qed.

Lemma outcome_stats_try h test used_shares a :
  outcome (stats_try h test) = Ok (used_shares, a) ↔
  ∃ shares locks,
    outcome (_smbstatus_data h "shares" _parse_share_line test) = Ok shares
    ∧ outcome (_smbstatus_data h "locks" _parse_lock_line test) = Ok locks
    ∧ outcome (_avail_space h) = Ok a
    ∧ used_shares = foldl add_locked_file (foldl add_machine ∅ shares) locks.
Proof.
  unfold stats_try. rewrite outcome_bind_Ok. split.
  - intros (su & Hsu & H). apply outcome_bind_Ok in H as (sl & Hsl & H).
    apply outcome_bind_Ok in H as (a' & Ha & H). simpl in H.
    injection H as <- <-. by exists su, sl.
  - intros (su & sl & Hsu & Hsl & Ha & ->). exists su. split; [done|].
    apply outcome_bind_Ok. exists sl. split; [done|].
    apply outcome_bind_Ok. by exists a.
Qed.

(** A report with a [status] comes from a run in which both generators
    and the collector ended well. *)
Lemma stats_status_inv h test r used_shares :
  outcome (stats h test) = Ok r →
  r !! "status" = Some (VStatus used_shares) →
  ∃ shares locks a,
    outcome (_smbstatus_data h "shares" _parse_share_line test) = Ok shares
    ∧ outcome (_smbstatus_data h "locks" _parse_lock_line test) = Ok locks
    ∧ outcome (_avail_space h) = Ok a
    ∧ used_shares = foldl add_locked_file (foldl add_machine ∅ shares) locks.
Proof.
  rewrite outcome_stats.
  destruct (outcome (stats_try h test)) as [[u a]|e] eqn:Hb.
  - intros [= <-] Hs.
    rewrite lookup_insert_ne, lookup_insert_eq in Hs by done.
    injection Hs as <-.
    apply outcome_stats_try in Hb as (su & sl & ? & ? & ? & ?).
    by exists su, sl, a.
  - destruct e; try done. intros [= <-] Hs.
    by rewrite lookup_singleton_ne in Hs.
Qed.

Lemma dom_add_machine u x : dom (add_machine u x) = {[x.1]} ∪ dom u.
Proof. unfold add_machine. by rewrite dom_insert_L. Qed.

Lemma dom_add_locked_file u x : dom (add_locked_file u x) = {[x.1]} ∪ dom u.
Proof. unfold add_locked_file. by rewrite dom_insert_L. Qed.

Lemma dom_foldl_add (add : gmap string share_item → string * record →
                           gmap string share_item) l :
  (∀ u x, dom (add u x) = {[x.1]} ∪ dom u) →
  ∀ u, dom (foldl add u l) = dom u ∪ list_to_set l.*1.
Proof.
  intros Hadd. induction l as [|x l IH]; intros u; simpl.
  - by rewrite (right_id_L ∅ (∪)).
  - rewrite IH, Hadd. set_solver.
Qed.

End Stats.

(** C2: whenever, in a run of [stats], a status subprocess (for [shares] or
    for [locks]) or a [stat] query exits with a status other than 0, or
    [SmbstatusError] is raised at any step, [stats] returns exactly the
    one-key mapping [{'in_error': True}]: it has no ['status'] and no
    ['avail_space'] key. *)
Theorem stats_failure_in_error h test ev :
  ev ∈ trace (stats h test) → failure ev →
  ∃ r, outcome (stats h test) = Ok r
       ∧ r = {["in_error" := VBool true]}
       ∧ dom r = {["in_error"]}
       ∧ r !! "status" = None ∧ r !! "avail_space" = None.
Proof.
  rewrite trace_stats. intros Hin Hf.
  destruct (fails_closed_stats_try h test ev Hin Hf) as [msg Hb].
  exists {["in_error" := VBool true]}. split; [|split; [done|split]].
  - by rewrite outcome_stats, Hb.
  - by rewrite dom_singleton_L.
  - split; by apply lookup_singleton_ne.
Qed.

Lemma stats_failure_in_error_witness :
  EvSmbstatus "shares" 1 ∈ trace (stats Examples.host_shares_fail false)
  ∧ failure (EvSmbstatus "shares" 1)
  ∧ outcome (stats Examples.host_shares_fail false)
    = Ok {["in_error" := VBool true]}.
Proof.
  assert (Hin : EvSmbstatus "shares" 1
                ∈ trace (stats Examples.host_shares_fail false))
    by (vm_compute; apply list_elem_of_here).
  assert (Hf : failure (EvSmbstatus "shares" 1)) by (simpl; lia).
  split; [exact Hin|split; [exact Hf|]].
  destruct (stats_failure_in_error _ _ _ Hin Hf) as (r & Ho & -> & _).
  exact Ho.
Defined.

(** C8: after a run of [stats] that ends well, the keys of the ['status']
    mapping are exactly the share names the two generators yielded: every
    yielded name is a key and every key was yielded. *)
Theorem status_keys_observed h test r used_shares :
  outcome (stats h test) = Ok r →
  r !! "status" = Some (VStatus used_shares) →
  ∃ shares locks,
    outcome (_smbstatus_data h "shares" _parse_share_line test) = Ok shares
    ∧ outcome (_smbstatus_data h "locks" _parse_lock_line test) = Ok locks
    ∧ dom used_shares = list_to_set (shares.*1 ++ locks.*1)
    ∧ ∀ name, name ∈ dom used_shares ↔ name ∈ shares.*1 ∨ name ∈ locks.*1.
Proof.
  intros Ho Hs.
  destruct (stats_status_inv _ _ _ _ Ho Hs) as (su & sl & a & ? & ? & ? & ->).
  exists su, sl. split; [done|split; [done|]].
  assert (Hd : dom (foldl add_locked_file (foldl add_machine ∅ su) sl)
               = list_to_set (su.*1 ++ sl.*1)).
  { rewrite (dom_foldl_add _ _ dom_add_locked_file),
      (dom_foldl_add _ _ dom_add_machine), dom_empty_L.
    rewrite list_to_set_app_L. set_solver. }
  split; [exact Hd|]. intros name. rewrite Hd.
  rewrite elem_of_list_to_set, elem_of_app. done.
Qed.

Lemma status_keys_observed_witness :
  outcome (stats Examples.host_public false) = Ok Examples.report_public
  ∧ Examples.report_public !! "status"
    = Some (VStatus Examples.status_public)
  ∧ ∀ name, name ∈ dom Examples.status_public → name = "public".
Proof.
  assert (Ho : outcome (stats Examples.host_public false)
               = Ok Examples.report_public) by (vm_compute; reflexivity).
  assert (Hs : Examples.report_public !! "status"
               = Some (VStatus Examples.status_public))
    by (vm_compute; reflexivity).
  split; [exact Ho|split; [exact Hs|]].
  destruct (status_keys_observed _ _ _ _ Ho Hs)
    as (su & sl & Hsu & Hsl & _ & Hk).
  assert (Hsu' : outcome (_smbstatus_data Examples.host_public "shares"
                            _parse_share_line false)
                 = Ok [("public", Examples.connection_public)])
    by (vm_compute; reflexivity).
  assert (Hsl' : outcome (_smbstatus_data Examples.host_public "locks"
                            _parse_lock_line false)
                 = Ok [("public", Examples.lock_public)])
    by (vm_compute; reflexivity).
  rewrite Hsu' in Hsu. rewrite Hsl' in Hsl.
  injection Hsu as <-. injection Hsl as <-.
  intros name [Hn|Hn]%Hk; simpl in Hn;
    by apply list_elem_of_singleton in Hn.
Defined.

(* ===================================================================== *)
(** * The disk-usage collector *)
(* ===================================================================== *)

Section AvailSpace.

Lemma outcome_space_step_Ok sd acc mount_point r :
  outcome (space_step sd acc mount_point) = Ok r →
  dom r = {[mount_point]} ∪ dom acc.
Proof.
  unfold space_step. intros H.
  apply outcome_bind_Ok in H as (si & _ & H).
  apply outcome_bind_Ok in H as (u & _ & H).
  apply outcome_bind_Ok in H as (a & _ & H).
  apply outcome_bind_Ok in H as (t & _ & H).
  simpl in H. injection H as <-. by rewrite dom_insert_L.
Qed.

Lemma space_fold_dom sd l : ∀ acc r,
  outcome (for_fold (space_step sd) acc l) = Ok r →
  dom r = dom acc ∪ list_to_set l.
Proof.
  induction l as [|x l IH]; intros acc r; simpl.
  - intros [= <-]. by rewrite (right_id_L ∅ (∪)).
  - intros H. apply outcome_bind_Ok in H as (acc' & Hs & H).
    apply IH in H as ->. apply outcome_space_step_Ok in Hs as ->.
    set_solver.
Qed.

(** The outcome of one lookup of the second loop: it raises [KeyError],
    for the mount point when the disk usage does not have it, for a
    field when the entry does not have it. *)
Lemma outcome_space_step_missing sd acc mount_point :
  sd !! mount_point = None →
  outcome (space_step sd acc mount_point) = Raise (KeyError mount_point).
Proof.
  intros Hn. unfold space_step. rewrite outcome_bind, outcome_call.
  unfold getitem. by rewrite Hn.
Qed.

Lemma outcome_space_step sd acc mount_point :
  outcome (space_step sd acc mount_point) =
  match sd !! mount_point with
  | None => Raise (KeyError mount_point)
  | Some si =>
      match si !! "used", si !! "available", si !! "1K-blocks" with
      | Some u, Some a, Some t =>
          Ok (<[mount_point := mk_mount_space u a t]> acc)
      | None, _, _ => Raise (KeyError "used")
      | Some _, None, _ => Raise (KeyError "available")
      | Some _, Some _, None => Raise (KeyError "1K-blocks")
      end
  end.
Proof.
  unfold space_step, getitem.
  destruct (sd !! mount_point) as [si|]; [|done]. simpl.
  destruct (si !! "used") as [u|]; [|done]. simpl.
  destruct (si !! "available") as [a|]; [|done]. simpl.
  by destruct (si !! "1K-blocks") as [t|].
Qed.

Lemma outcome_space_step_cases sd acc mount_point :
  (∃ r, outcome (space_step sd acc mount_point) = Ok r
        ∧ is_Some (sd !! mount_point))
  ∨ (∃ key, outcome (space_step sd acc mount_point) = Raise (KeyError key)
            ∧ (key = mount_point ∧ sd !! mount_point = None
               ∨ key ∈ ["used"; "available"; "1K-blocks"])).
Proof.
  rewrite outcome_space_step.
  destruct (sd !! mount_point) as [si|] eqn:Hsi;
    [|right; exists mount_point; split; [done|by left]].
  destruct (si !! "used") as [u|];
    [|right; eexists; split; [done|right; set_solver]].
  destruct (si !! "available") as [a|];
    [|right; eexists; split; [done|right; set_solver]].
  destruct (si !! "1K-blocks") as [t|];
    [|right; eexists; split; [done|right; set_solver]].
  left. eexists. split; [done|by eexists].
Qed.

Lemma space_fold_missing sd l : ∀ acc mount_point,
  mount_point ∈ l → sd !! mount_point = None →
  ∃ key, outcome (for_fold (space_step sd) acc l) = Raise (KeyError key)
         ∧ (key ∈ l ∧ sd !! key = None
            ∨ key ∈ ["used"; "available"; "1K-blocks"]).
Proof.
  induction l as [|x l IH]; intros acc mp Hin Hn.
  - by apply elem_of_nil in Hin.
  - simpl. rewrite outcome_bind.
    destruct (outcome_space_step_cases sd acc x)
      as [(r & -> & Hx)|(key & -> & Hk)].
    + apply elem_of_cons in Hin as [->|Hin].
      { rewrite Hn in Hx. by destruct Hx. }
      destruct (IH r mp Hin Hn) as (key & -> & [[Hkl Hkn]|Hk]).
      * exists key. split; [done|left]. split; [|done].
        by apply list_elem_of_further.
      * exists key. split; [done|by right].
    + exists key. split; [done|].
      destruct Hk as [[-> Hx]|Hk]; [left|by right].
      split; [apply list_elem_of_here|done].
Qed.

End AvailSpace.

(** C9: whatever the configured directories, when the collector returns,
    the keys of ['disk_usage'] are exactly the values of ['mount_points']:
    one entry per distinct mount point, also when two directories are on
    the same mount point. *)
Theorem disk_usage_keys h a :
  outcome (_avail_space h) = Ok a →
  dom (space_info a) = map_img (mount_points a).
Proof.
  unfold _avail_space. intros H.
  apply outcome_bind_Ok in H as (d2m & _ & H).
  apply outcome_bind_Ok in H as (si & Hsi & H).
  simpl in H. injection H as <-. simpl.
  apply space_fold_dom in Hsi as ->.
  rewrite dom_empty_L, (left_id_L ∅ (∪)).
  apply list_to_set_elements_L.
Qed.

Lemma disk_usage_keys_witness :
  outcome (_avail_space Examples.host_public) = Ok Examples.avail_public
  ∧ dom (space_info Examples.avail_public) = {["/mnt"]}
  ∧ map_img (mount_points Examples.avail_public) = ({["/mnt"]} : gset string).
Proof.
  assert (Ho : outcome (_avail_space Examples.host_public)
               = Ok Examples.avail_public) by (vm_compute; reflexivity).
  assert (Hd : dom (space_info Examples.avail_public) = {["/mnt"]})
    by (vm_compute; reflexivity).
  split; [exact Ho|split; [exact Hd|]].
  rewrite <- (disk_usage_keys _ _ Ho). exact Hd.
Defined.

(** C1, as the code has it: in a run of the collector in which every
    [stat] query succeeds and the mount point of some configured directory
    is absent from the disk-usage data, the collector raises [KeyError]
    (for a mount point the data does not have, or for a field an entry
    does not have), not [SmbstatusError]; and [stats], when the two
    generators ended well, lets this [KeyError] through to its caller. *)
Theorem missing_mount_point_KeyError h d2m directory mount_point :
  outcome (resolve_mount_points h) = Ok d2m →
  d2m !! directory = Some mount_point →
  disk_usage h !! mount_point = None →
  ∃ key,
    outcome (_avail_space h) = Raise (KeyError key)
    ∧ (key ∈ (map_img d2m : gset string) ∧ disk_usage h !! key = None
       ∨ key ∈ ["used"; "available"; "1K-blocks"])
    ∧ ∀ test shares locks,
        outcome (_smbstatus_data h "shares" _parse_share_line test)
        = Ok shares →
        outcome (_smbstatus_data h "locks" _parse_lock_line test)
        = Ok locks →
        outcome (stats h test) = Raise (KeyError key).
Proof.
  intros Hr Hd Hn.
  assert (Hin : mount_point ∈ elements (map_img d2m : gset string)).
  { apply elem_of_elements, elem_of_map_img. by exists directory. }
  destruct (space_fold_missing (disk_usage h) _ ∅ _ Hin Hn)
    as (key & Hk & Hkey).
  assert (Ha : outcome (_avail_space h) = Raise (KeyError key)).
  { unfold _avail_space. rewrite outcome_bind, Hr, outcome_bind.
    simpl. by rewrite Hk. }
  exists key. split; [exact Ha|split].
  - destruct Hkey as [[Hkl Hkn]|Hf]; [left|by right].
    split; [by apply elem_of_elements in Hkl|done].
  - intros test su sl Hsu Hsl.
    rewrite outcome_stats. unfold stats_try.
    rewrite outcome_bind, Hsu, outcome_bind, Hsl, outcome_bind, Ha. done.
Qed.

Lemma missing_mount_point_KeyError_witness :
  outcome (resolve_mount_points Examples.host_missing_mount)
  = Ok {["/mnt/samba" := "/mnt"]}
  ∧ ∃ key, outcome (_avail_space Examples.host_missing_mount)
           = Raise (KeyError key).
Proof.
  assert (Hr : outcome (resolve_mount_points Examples.host_missing_mount)
               = Ok {["/mnt/samba" := "/mnt"]}) by (vm_compute; reflexivity).
  split; [exact Hr|].
  destruct (missing_mount_point_KeyError Examples.host_missing_mount
              {["/mnt/samba" := "/mnt"]} "/mnt/samba" "/mnt" Hr)
    as (key & Hk & _); [vm_compute; reflexivity..|].
  by exists key.
Defined.

(** C1, as the specification has it, fails: on a host whose one configured
    directory is on [/mnt] and whose disk-usage data has no [/mnt], the
    collector raises [KeyError], no [SmbstatusError], and [stats] does not
    return [{'in_error': True}]: the [KeyError] leaves [stats]. *)
Lemma missing_mount_point_not_SmbstatusError :
  outcome (resolve_mount_points Examples.host_missing_mount)
  = Ok {["/mnt/samba" := "/mnt"]}
  ∧ disk_usage Examples.host_missing_mount !! "/mnt" = None
  ∧ outcome (_avail_space Examples.host_missing_mount)
    = Raise (KeyError "/mnt")
  ∧ (∀ msg, outcome (_avail_space Examples.host_missing_mount)
            ≠ Raise (SmbstatusError msg))
  ∧ outcome (stats Examples.host_missing_mount false)
    = Raise (KeyError "/mnt")
  ∧ outcome (stats Examples.host_missing_mount false)
    ≠ Ok {["in_error" := VBool true]}.
Proof.
  assert (Ha : outcome (_avail_space Examples.host_missing_mount)
               = Raise (KeyError "/mnt")) by (vm_compute; reflexivity).
  assert (Hs : outcome (stats Examples.host_missing_mount false)
               = Raise (KeyError "/mnt")) by (vm_compute; reflexivity).
  split; [vm_compute; reflexivity|].
  split; [vm_compute; reflexivity|].
  split; [exact Ha|]. split; [by rewrite Ha|].
  split; [exact Hs|by rewrite Hs].
Qed.

(* ===================================================================== *)
(** * The records of the parsers and of the generator *)
(* ===================================================================== *)

Section Records.

Lemma rbind_Ok {A B} (r : result A) (f : A → result B) b :
  rbind r f = Ok b → ∃ a, r = Ok a ∧ f a = Ok b.
Proof. destruct r as [a|e]; [|done]. intros H. by exists a. Qed.

Lemma re_match_Matches r s g rest :
  re_match r s = Some (g, rest) → Matches r s ∅ rest g.
Proof.
  unfold re_match. intros H.
  apply rmatch_sound in H as (s' & g' & Hm & [= <- <-]). exact Hm.
Qed.

(** A record of the shares parser: the three fields, with a date that
    [_normdate] made. *)
Lemma parse_share_Some index line v :
  _parse_share_line index line = Ok (Some v) →
  ∃ share machine datestr date,
    _normdate datestr = Ok date
    ∧ split line !! 0 = Some share
    ∧ v = <["share" := share]>
            (<["machine" := machine]> {["date" := date]}).
Proof.
  unfold _parse_share_line.
  destruct (existsb _ _); [done|].
  destruct (bool_decide (split line = [])); [done|].
  destruct (bool_decide (split line = _)); [done|].
  intros H. apply rbind_Ok in H as (share & Hs & H).
  apply rbind_Ok in H as (machine & _ & H).
  apply rbind_Ok in H as (date & Hd & H). injection H as <-.
  exists share, machine, (join " " (slice_from 3 (split line))), date.
  split; [exact Hd|split; [|done]].
  unfold Py.index in Hs. by destruct (split line !! 0); simplify_eq.
Qed.

Lemma group_names_locked :
  group_names _REGEX_LOCKED_FILES =
  {["pid"; "uid"; "denyMode"; "access"; "rw"; "oplock"; "sharePath";
    "filename"; "dow"; "moy"; "dom"; "tod"; "year"]}.
Proof. vm_compute. reflexivity. Qed.

Lemma groups_definite_locked : groups_definite _REGEX_LOCKED_FILES = true.
Proof. vm_compute. reflexivity. Qed.

(** [groupdict()] of a match of a lock line has the thirteen groups. *)
Lemma re_match_locked_dom s g rest :
  re_match _REGEX_LOCKED_FILES s = Some (g, rest) →
  dom g = {["pid"; "uid"; "denyMode"; "access"; "rw"; "oplock";
            "sharePath"; "filename"; "dow"; "moy"; "dom"; "tod"; "year"]}.
Proof.
  intros Hm%re_match_Matches.
  apply Matches_dom in Hm; [|apply groups_definite_locked].
  by rewrite Hm, dom_empty_L, (left_id_L ∅ (∪)), group_names_locked.
Qed.

(** A record of the locks parser: the groups of the match without the
    five date fields and [sharePath], with [date] and [share]. *)
Lemma parse_lock_Some index line v :
  _parse_lock_line index line = Ok (Some v) →
  ∃ g rest datestr date sharePath,
    re_match _REGEX_LOCKED_FILES (sub_spaces line) = Some (g, rest)
    ∧ _normdate datestr = Ok date
    ∧ v = <["share" := basename sharePath]>
            (delete "sharePath"
               (<["date" := date]>
                  (foldl (λ r key, delete key r) g
                         ["dow"; "moy"; "dom"; "tod"; "year"]))).
Proof.
  unfold _parse_lock_line.
  destruct (_ || _)%bool; [done|].
  destruct (existsb _ _); [done|].
  destruct (re_match _ _) as [[g rest]|] eqn:Hm; [|done].
  intros H. apply rbind_Ok in H as (dow & _ & H).
  apply rbind_Ok in H as (moy & _ & H).
  apply rbind_Ok in H as (dom & _ & H).
  apply rbind_Ok in H as (tod & _ & H).
  apply rbind_Ok in H as (year & _ & H).
  apply rbind_Ok in H as (date & Hd & H).
  apply rbind_Ok in H as (sharePath & _ & H). injection H as <-.
  by exists g, rest, (dow +:+ " " +:+ moy +:+ " " +:+ dom +:+ " "
                      +:+ tod +:+ " " +:+ year), date, sharePath.
Qed.

Lemma parse_share_dom index line v :
  _parse_share_line index line = Ok (Some v) →
  dom v = {["share"]} ∪ connection_fields.
Proof.
  intros (share & machine & ds & date & _ & _ & ->)%parse_share_Some.
  rewrite !dom_insert_L, dom_singleton_L. unfold connection_fields.
  set_solver.
Qed.

Lemma parse_lock_dom index line v :
  _parse_lock_line index line = Ok (Some v) →
  dom v = {["share"]} ∪ lock_fields.
Proof.
  intros (g & rest & ds & date & sp & Hm & _ & ->)%parse_lock_Some.
  apply re_match_locked_dom in Hm. simpl.
  rewrite dom_insert_L, dom_delete_L, dom_insert_L, !dom_delete_L, Hm.
  vm_compute. reflexivity.
Qed.

(** What the generator yields for a line: the record of the parser
    without its [share], which is yielded beside it. *)
Lemma data_step_Some parser index line share rec :
  outcome (data_step parser index line) = Ok (Some (share, rec)) →
  ∃ v, parser index line = Ok (Some v)
       ∧ v !! "share" = Some share ∧ rec = delete "share" v.
Proof.
  unfold data_step. rewrite outcome_bind, outcome_call.
  destruct (parser index line) as [[v|]|e]; [|done..].
  rewrite outcome_bind.
  destruct (outcome _) as [[]|]; [|done].
  rewrite outcome_bind, outcome_call. unfold getitem.
  destruct (v !! "share") as [sh|] eqn:Hsh; [|done].
  simpl. intros [= <- <-]. by exists v.
Qed.

Lemma data_loop_Ok parser lines : ∀ index ys,
  outcome (data_loop parser index lines) = Ok ys →
  ∀ share rec, (share, rec) ∈ ys →
    ∃ i line v, parser i line = Ok (Some v)
                ∧ v !! "share" = Some share ∧ rec = delete "share" v.
Proof.
  induction lines as [|line lines IH]; intros index ys; simpl.
  - intros [= <-] share rec Hin. by apply elem_of_nil in Hin.
  - intros H. apply outcome_bind_Ok in H as (y & Hy & H).
    apply outcome_bind_Ok in H as (ys' & Hys & H).
    simpl in H. injection H as <-.
    intros share rec [Hin|Hin]%elem_of_app.
    + destruct y as [[sh rc]|]; [|by apply elem_of_nil in Hin].
      apply list_elem_of_singleton in Hin as [= -> ->].
      apply data_step_Some in Hy as (v & ? & ? & ?). by exists index, line, v.
    + by apply (IH _ _ Hys).
Qed.

Lemma smbstatus_data_Ok h command parser test ys :
  outcome (_smbstatus_data h command parser test) = Ok ys →
  ∀ share rec, (share, rec) ∈ ys →
    ∃ i line v, parser i line = Ok (Some v)
                ∧ v !! "share" = Some share ∧ rec = delete "share" v.
Proof.
  unfold _smbstatus_data. intros H.
  apply outcome_bind_Ok in H as (lines & _ & H).
  exact (data_loop_Ok _ _ _ _ H).
Qed.

Lemma items_ok_dd_get P Q u share :
  map_Forall (λ _, items_ok P Q) u → items_ok P Q (dd_get u share).
Proof.
  intros Hu. unfold dd_get. destruct (u !! share) as [it|] eqn:Hit; simpl.
  - by apply (Hu share).
  - by split.
Qed.

Lemma items_ok_foldl_machine P Q l : ∀ u,
  map_Forall (λ _, items_ok P Q) u → Forall (λ x, P x.2) l →
  map_Forall (λ _, items_ok P Q) (foldl add_machine u l).
Proof.
  induction l as [|x l IH]; intros u Hu Hl; simpl; [done|].
  apply Forall_cons in Hl as [Hx Hl]. apply IH; [|done].
  unfold add_machine. apply map_Forall_insert_2; [|done].
  destruct (items_ok_dd_get P Q u x.1 Hu) as [Hm Hk].
  split; simpl; [|done]. apply Forall_app. split; [done|by constructor].
Qed.

Lemma items_ok_foldl_locked P Q l : ∀ u,
  map_Forall (λ _, items_ok P Q) u → Forall (λ x, Q x.2) l →
  map_Forall (λ _, items_ok P Q) (foldl add_locked_file u l).
Proof.
  induction l as [|x l IH]; intros u Hu Hl; simpl; [done|].
  apply Forall_cons in Hl as [Hx Hl]. apply IH; [|done].
  unfold add_locked_file. apply map_Forall_insert_2; [|done].
  destruct (items_ok_dd_get P Q u x.1 Hu) as [Hm Hk].
  split; simpl; [done|]. apply Forall_app. split; [done|by constructor].
Qed.

End Records.

(** C3, as the code has it: in the report of a run that ended well, every
    record stored in [machines] has exactly the fields [machine] and [date],
    and every record stored in [locked_files] exactly the fields [pid],
    [uid], [denyMode], [access], [rw], [oplock], [filename] and [date]; the
    share is the key the record is stored under, not a field of it. *)
Theorem stored_record_fields h test r used_shares share it :
  outcome (stats h test) = Ok r →
  r !! "status" = Some (VStatus used_shares) →
  used_shares !! share = Some it →
  Forall (λ m, dom m = connection_fields ∧ m !! "share" = None) (machines it)
  ∧ Forall (λ l, dom l = lock_fields ∧ l !! "share" = None) (locked_files it).
Proof.
  intros Ho Hs Hit.
  destruct (stats_status_inv _ _ _ _ Ho Hs)
    as (su & sl & a & Hsu & Hsl & _ & ->).
  revert Hit. apply (map_Forall_lookup_1 (λ _, items_ok _ _)).
  apply items_ok_foldl_locked; [apply items_ok_foldl_machine|].
  - apply map_Forall_empty.
  - apply Forall_forall. intros [sh rec] Hin. simpl.
    destruct (smbstatus_data_Ok _ _ _ _ _ Hsu sh rec Hin)
      as (i & line & v & Hv%parse_share_dom & _ & ->).
    split; [|apply lookup_delete_eq].
    rewrite dom_delete_L, Hv. vm_compute. reflexivity.
  - apply Forall_forall. intros [sh rec] Hin. simpl.
    destruct (smbstatus_data_Ok _ _ _ _ _ Hsl sh rec Hin)
      as (i & line & v & Hv%parse_lock_dom & _ & ->).
    split; [|apply lookup_delete_eq].
    rewrite dom_delete_L, Hv. vm_compute. reflexivity.
Qed.

Lemma stored_record_fields_witness :
  outcome (stats Examples.host_public false) = Ok Examples.report_public
  ∧ Examples.report_public !! "status"
    = Some (VStatus Examples.status_public)
  ∧ Examples.status_public !! "public"
    = Some (mk_share_item [Examples.connection_public] [Examples.lock_public])
  ∧ dom Examples.connection_public = connection_fields
  ∧ dom Examples.lock_public = lock_fields.
Proof.
  assert (Ho : outcome (stats Examples.host_public false)
               = Ok Examples.report_public) by (vm_compute; reflexivity).
  assert (Hs : Examples.report_public !! "status"
               = Some (VStatus Examples.status_public))
    by (vm_compute; reflexivity).
  assert (Hit : Examples.status_public !! "public"
                = Some (mk_share_item [Examples.connection_public]
                                      [Examples.lock_public]))
    by (vm_compute; reflexivity).
  split; [exact Ho|split; [exact Hs|split; [exact Hit|]]].
  destruct (stored_record_fields _ _ _ _ _ _ Ho Hs Hit) as [Hm Hl].
  simpl in Hm, Hl.
  apply Forall_singleton in Hm as [Hm _].
  apply Forall_singleton in Hl as [Hl _]. by split.
Defined.

(** C3, as the specification has it, fails: on a host with one connection
    and one lock on the share [public], the run ends well and the record
    stored in [machines] and the one stored in [locked_files] have no
    [share] field. *)
Lemma stored_records_lack_share :
  outcome (stats Examples.host_public false) = Ok Examples.report_public
  ∧ Examples.report_public !! "status"
    = Some (VStatus Examples.status_public)
  ∧ Examples.status_public !! "public"
    = Some (mk_share_item [Examples.connection_public] [Examples.lock_public])
  ∧ Examples.connection_public !! "share" = None
  ∧ Examples.lock_public !! "share" = None
  ∧ dom Examples.connection_public ≠ {["share"; "machine"; "date"]}.
Proof.
  repeat split; try (vm_compute; reflexivity).
  vm_compute. discriminate.
Qed.

(* ===================================================================== *)
(** * Dates *)
(* ===================================================================== *)

Section Dates.

Lemma has_shape_app ps qs s t :
  has_shape ps s = true → has_shape qs t = true →
  has_shape (ps ++ qs) (s +:+ t) = true.
Proof.
  revert s. induction ps as [|p ps IH]; intros [|c s]; simpl; try done.
  intros [Hp Hs]%andb_true_iff Ht. rewrite Hp. simpl. by apply IH.
Qed.

Lemma has_shape_length ps s :
  has_shape ps s = true → String.length s = length ps.
Proof.
  revert s. induction ps as [|p ps IH]; intros [|c s]; simpl; try done.
  intros [_ Hs]%andb_true_iff. by rewrite (IH s).
Qed.

Lemma fmt_0d_2_shape n :
  n ≤ 99 → has_shape [is_digit; is_digit] (fmt_0d 2 n) = true.
Proof.
  intros Hn.
  assert (Hall : forallb (λ n, has_shape [is_digit; is_digit] (fmt_0d 2 n))
                   (seq 0 100) = true) by (vm_compute; reflexivity).
  rewrite forallb_forall in Hall. apply Hall, in_seq. lia.
Qed.

Lemma fmt_0d_4_shape n :
  n ≤ MAXYEAR →
  has_shape [is_digit; is_digit; is_digit; is_digit] (fmt_0d 4 n) = true.
Proof.
  intros Hn.
  assert (Hall : forallb (λ n, has_shape [is_digit; is_digit; is_digit;
                                          is_digit] (fmt_0d 4 n))
                   (seq 0 (S MAXYEAR)) = true) by (vm_compute; reflexivity).
  rewrite forallb_forall in Hall. apply Hall, in_seq. lia.
Qed.

Lemma days_in_month_le y m : days_in_month y m ≤ 31.
Proof.
  unfold days_in_month.
  do 12 (destruct m as [|m]; [try lia; destruct (is_leap y); lia|]). lia.
Qed.

(** A datetime the constructor accepted has every field in its range. *)
Lemma make_Ok y m d H M S dt :
  make y m d H M S = Ok dt →
  year dt ≤ MAXYEAR ∧ month dt ≤ 99 ∧ day dt ≤ 99
  ∧ hour dt ≤ 99 ∧ minute dt ≤ 99 ∧ second dt ≤ 99.
Proof.
  unfold make. destruct (_ && _)%bool eqn:Hc; [|done].
  intros [= <-]. simpl.
  repeat (apply andb_true_iff in Hc as [Hc ?]).
  repeat match goal with
         | H : (_ <=? _) = true |- _ => apply Nat.leb_le in H
         end.
  pose proof (days_in_month_le y m). lia.
Qed.

Lemma isoformat_shape dt :
  year dt ≤ MAXYEAR → month dt ≤ 99 → day dt ≤ 99 →
  hour dt ≤ 99 → minute dt ≤ 99 → second dt ≤ 99 →
  iso_shape (isoformat dt) = true.
Proof.
  intros Hy Hm Hd HH HM HS. unfold iso_shape, isoformat.
  apply (has_shape_app [_; _; _; _]); [by apply fmt_0d_4_shape|].
  apply (has_shape_app [_]); [done|].
  apply (has_shape_app [_; _]); [by apply fmt_0d_2_shape|].
  apply (has_shape_app [_]); [done|].
  apply (has_shape_app [_; _]); [by apply fmt_0d_2_shape|].
  apply (has_shape_app [_]); [done|].
  apply (has_shape_app [_; _]); [by apply fmt_0d_2_shape|].
  apply (has_shape_app [_]); [done|].
  apply (has_shape_app [_; _]); [by apply fmt_0d_2_shape|].
  apply (has_shape_app [_]); [done|].
  by apply fmt_0d_2_shape.
Qed.

Lemma strptime_Ok s dt :
  strptime s = Ok dt → ∃ y m d H M S, make y m d H M S = Ok dt.
Proof.
  unfold strptime. destruct (re_match _ _) as [[found rest]|]; [|done].
  destruct (negb _); [done|]. intros H.
  apply rbind_Ok in H as (y & _ & H). apply rbind_Ok in H as (m & _ & H).
  apply rbind_Ok in H as (d & _ & H). apply rbind_Ok in H as (HH & _ & H).
  apply rbind_Ok in H as (MM & _ & H). apply rbind_Ok in H as (SS & _ & H).
  by exists y, m, d, HH, MM, SS.
Qed.

(** What [_normdate] returns has the nineteen characters of
    [YYYY-MM-DDTHH:MM:SS]. *)
Lemma normdate_Ok s date :
  _normdate s = Ok date →
  iso_shape date = true ∧ String.length date = 19.
Proof.
  unfold _normdate. intros (dt & Hdt & [= <-])%rbind_Ok.
  apply strptime_Ok in Hdt as (y & m & d & H & M & S & Hmk).
  apply make_Ok in Hmk as (? & ? & ? & ? & ? & ?).
  assert (Hs : iso_shape (isoformat dt) = true) by by apply isoformat_shape.
  split; [done|]. by apply has_shape_length in Hs.
Qed.

(** [_normdate] raises nothing but [ValueError]. *)
Lemma rbind_Raise {A B} (r : result A) (f : A → result B) e :
  rbind r f = Raise e → r = Raise e ∨ ∃ a, r = Ok a ∧ f a = Raise e.
Proof.
  destruct r as [a|e']; simpl; intros H; [right; by exists a|left; by injection H as ->].
Qed.

Lemma int_Raise s e : int s = Raise e → e = ValueError.
Proof.
  unfold int. destruct (strip s); [by intros [= <-]|].
  destruct (int_go _ _); [done|by intros [= <-]].
Qed.

Lemma list_index_Raise x l e : list_index x l = Raise e → e = ValueError.
Proof.
  induction l as [|y l IH]; simpl; [by intros [= <-]|].
  destruct (String.eqb y x); [done|].
  intros [H|(a & _ & H)]%rbind_Raise; [by apply IH|by simpl in H].
Qed.

Lemma field_Raise found key dflt conv e :
  (∀ v e', conv v = Raise e' → e' = ValueError) →
  field found key dflt conv = Raise e → e = ValueError.
Proof.
  intros Hc. unfold field. destruct (found !! key); [apply Hc|done].
Qed.

Lemma make_Raise y m d H M S e :
  make y m d H M S = Raise e → e = ValueError.
Proof. unfold make. destruct (_ && _)%bool; [done|by intros [= <-]]. Qed.

Lemma strptime_Raise s e : strptime s = Raise e → e = ValueError.
Proof.
  unfold strptime.
  destruct (re_match _ _) as [[found rest]|]; [|by intros [= <-]].
  destruct (negb _); [by intros [= <-]|]. intros H.
  repeat match type of H with
         | rbind _ _ = Raise _ =>
             apply rbind_Raise in H as [H|(? & _ & H)];
             [apply field_Raise in H; [done|]; intros v e';
              first [apply int_Raise|apply list_index_Raise]|]
         end.
  by apply make_Raise in H.
Qed.

Lemma normdate_Raise s e : _normdate s = Raise e → e = ValueError.
Proof.
  unfold _normdate.
  intros [H|(a & _ & H)]%rbind_Raise;
    [by apply strptime_Raise in H|by simpl in H].
Qed.

End Dates.

(** C6: the date normalizer turns ["Wed Jan 07 14:23:59 2015"] into
    ["2015-01-07T14:23:59"], and into nothing else: a text of the form
    [YYYY-MM-DDTHH:MM:SS], with seconds and without a time zone. *)
Theorem normdate_example :
  _normdate "Wed Jan 07 14:23:59 2015" = Ok "2015-01-07T14:23:59"
  ∧ iso_shape "2015-01-07T14:23:59" = true
  ∧ ∀ out, _normdate "Wed Jan 07 14:23:59 2015" = Ok out →
           out = "2015-01-07T14:23:59".
Proof.
  assert (H : _normdate "Wed Jan 07 14:23:59 2015"
              = Ok "2015-01-07T14:23:59") by (vm_compute; reflexivity).
  split; [exact H|split; [vm_compute; reflexivity|]].
  intros out. rewrite H. by intros [= <-].
Qed.

(* ===================================================================== *)
(** * The parsers, line by line *)
(* ===================================================================== *)

Section Parsers.

Lemma parse_share_date index line v :
  _parse_share_line index line = Ok (Some v) →
  ∃ date, v !! "date" = Some date
          ∧ String.length date = 19 ∧ iso_shape date = true.
Proof.
  intros (share & machine & ds & date & Hd & _ & ->)%parse_share_Some.
  apply normdate_Ok in Hd as [Hs Hl]. exists date.
  by rewrite !lookup_insert_ne, lookup_singleton_eq.
Qed.

Lemma parse_lock_date index line v :
  _parse_lock_line index line = Ok (Some v) →
  ∃ date, v !! "date" = Some date
          ∧ String.length date = 19 ∧ iso_shape date = true.
Proof.
  intros (g & rest & ds & date & sp & _ & Hd & ->)%parse_lock_Some.
  apply normdate_Ok in Hd as [Hs Hl]. exists date.
  by rewrite lookup_insert_ne, lookup_delete_ne, lookup_insert_eq.
Qed.

Lemma getitem_Raise {V} (d : gmap string V) k e :
  getitem d k = Raise e → ∃ key, e = KeyError key.
Proof.
  unfold getitem. destruct (d !! k); [done|]. intros [= <-]. by eexists.
Qed.

Lemma index_Raise {X} (l : list X) i e :
  Py.index l i = Raise e → e = IndexError.
Proof. unfold Py.index. destruct (l !! i); [done|]. by intros [= <-]. Qed.

(** Neither parser raises [AssertionError]. *)
Lemma parse_share_Raise index line e :
  _parse_share_line index line = Raise e → e ≠ AssertionError.
Proof.
  unfold _parse_share_line.
  destruct (existsb _ _); [done|].
  destruct (bool_decide (split line = [])); [done|].
  destruct (bool_decide (split line = _)); [done|].
  intros [H%index_Raise|(? & _ & H)]%rbind_Raise; [by subst|].
  apply rbind_Raise in H as [H%index_Raise|(? & _ & H)]; [by subst|].
  apply rbind_Raise in H as [H%normdate_Raise|(? & _ & H)];
    [by subst|by simpl in H].
Qed.

Lemma parse_lock_Raise index line e :
  _parse_lock_line index line = Raise e → e ≠ AssertionError.
Proof.
  unfold _parse_lock_line.
  destruct (_ || _)%bool; [done|].
  destruct (existsb _ _); [done|].
  destruct (re_match _ _) as [[g rest]|]; [|done]. intros H.
  do 5 (apply rbind_Raise in H as [[? ->]%getitem_Raise|(? & _ & H)];
        [done|]).
  apply rbind_Raise in H as [H%normdate_Raise|(? & _ & H)]; [by subst|].
  apply rbind_Raise in H as [[? ->]%getitem_Raise|(? & _ & H)];
    [done|by simpl in H].
Qed.

(** The assertion of the generator does not fail on a record whose date,
    when it has one, has nineteen characters. *)
Lemma data_step_no_assert parser index line :
  (∀ e, parser index line = Raise e → e ≠ AssertionError) →
  (∀ v date, parser index line = Ok (Some v) → v !! "date" = Some date →
             String.length date = 19) →
  EvRaise AssertionError ∉ trace (data_step parser index line).
Proof.
  intros Hr Hd. unfold data_step.
  destruct (parser index line) as [[v|]|e] eqn:Hp; simpl.
  - destruct (v !! "date") as [date|] eqn:Hdate; simpl.
    + rewrite bool_decide_eq_true_2 by by apply (Hd v).
      simpl. unfold getitem. destruct (v !! "share"); simpl.
      * apply not_elem_of_nil.
      * intros [=]%list_elem_of_singleton.
    + unfold getitem. destruct (v !! "share"); simpl.
      * apply not_elem_of_nil.
      * intros [=]%list_elem_of_singleton.
  - apply not_elem_of_nil.
  - intros [= He]%list_elem_of_singleton. by apply (Hr e eq_refl).
Qed.

Lemma data_loop_no_assert parser lines :
  (∀ index line e, parser index line = Raise e → e ≠ AssertionError) →
  (∀ index line v date,
      parser index line = Ok (Some v) → v !! "date" = Some date →
      String.length date = 19) →
  ∀ index, EvRaise AssertionError ∉ trace (data_loop parser index lines).
Proof.
  intros Hr Hd. induction lines as [|line lines IH]; intros index; simpl.
  - apply not_elem_of_nil.
  - rewrite trace_bind, elem_of_app. intros [Hin|Hin].
    + revert Hin. apply data_step_no_assert; [apply Hr|apply Hd].
    + destruct (outcome (data_step _ _ _)) as [y|];
        [|by apply elem_of_nil in Hin].
      rewrite trace_bind, elem_of_app in Hin. destruct Hin as [Hin|Hin].
      * by apply (IH (S index)).
      * destruct (outcome (data_loop _ _ _)); by apply elem_of_nil in Hin.
Qed.

Lemma smbstatus_cmd_no_assert h command test :
  EvRaise AssertionError ∉ trace (_smbstatus_cmd h command test).
Proof.
  unfold _smbstatus_cmd. destruct test; simpl.
  - apply not_elem_of_nil.
  - destruct (bool_decide _); simpl.
    + intros [Hin|Hin]%elem_of_cons; [done|].
      by apply list_elem_of_singleton in Hin.
    + by intros Hin%list_elem_of_singleton.
Qed.

Lemma smbstatus_data_no_assert h command parser test :
  (∀ index line e, parser index line = Raise e → e ≠ AssertionError) →
  (∀ index line v date,
      parser index line = Ok (Some v) → v !! "date" = Some date →
      String.length date = 19) →
  EvRaise AssertionError ∉ trace (_smbstatus_data h command parser test).
Proof.
  intros Hr Hd. unfold _smbstatus_data.
  rewrite trace_bind, elem_of_app. intros [Hin|Hin].
  - by apply smbstatus_cmd_no_assert in Hin.
  - destruct (outcome _) as [lines|]; [|by apply elem_of_nil in Hin].
    by apply data_loop_no_assert in Hin.
Qed.

End Parsers.

(** C5: every record either line parser returns has a [date] of exactly
    nineteen characters, of the form [YYYY-MM-DDTHH:MM:SS]; so the
    assertion of the generator holds for every record, and no run of the
    generator, with either parser, raises [AssertionError]. *)
Theorem parsed_date_length_19 index line v :
  _parse_share_line index line = Ok (Some v)
  ∨ _parse_lock_line index line = Ok (Some v) →
  (∃ date, v !! "date" = Some date
           ∧ String.length date = 19 ∧ iso_shape date = true)
  ∧ ∀ h command test,
      EvRaise AssertionError
        ∉ trace (_smbstatus_data h command _parse_share_line test)
      ∧ EvRaise AssertionError
        ∉ trace (_smbstatus_data h command _parse_lock_line test).
Proof.
  intros Hv. split.
  - destruct Hv as [Hv|Hv];
      [by apply parse_share_date in Hv|by apply parse_lock_date in Hv].
  - intros h command test. split; apply smbstatus_data_no_assert.
    + apply parse_share_Raise.
    + intros i l v' date Hp Hdate.
      destruct (parse_share_date _ _ _ Hp) as (d & Hd & Hl & _).
      by simplify_eq.
    + apply parse_lock_Raise.
    + intros i l v' date Hp Hdate.
      destruct (parse_lock_date _ _ _ Hp) as (d & Hd & Hl & _).
      by simplify_eq.
Qed.

Lemma parsed_date_length_19_witness :
  _parse_share_line 0 Examples.share_line
  = Ok (Some (<["share" := "public"]> Examples.connection_public))
  ∧ ∃ date, (<["share" := "public"]> Examples.connection_public) !! "date"
            = Some date ∧ String.length date = 19.
Proof.
  assert (Hp : _parse_share_line 0 Examples.share_line
               = Ok (Some (<["share" := "public"]>
                             Examples.connection_public)))
    by (vm_compute; reflexivity).
  split; [exact Hp|].
  destruct (parsed_date_length_19 0 Examples.share_line _ (or_introl Hp))
    as [(date & Hd & Hl & _) _].
  by exists date.
Defined.

(** C7: a lock line that is not blank, does not start with one of the
    ignored headers and whose form with tabs does not match the pattern
    is ignored: the locks parser returns [None] and raises nothing. *)
Theorem unparseable_lock_line_ignored index line :
  line ≠ "" → line ≠ String NL "" →
  (∀ ignored, ignored ∈ _LOCKS_IGNORED_STARTS →
              startswith line ignored = false) →
  re_match _REGEX_LOCKED_FILES (sub_spaces line) = None →
  _parse_lock_line index line = Ok None.
Proof.
  intros He Hn Hi Hm. unfold _parse_lock_line.
  apply String.eqb_neq in He, Hn. rewrite He, Hn. simpl orb. cbv iota.
  assert (Hex : existsb (startswith line) _LOCKS_IGNORED_STARTS = false).
  { apply not_true_is_false. intros (x & Hin & Hx)%existsb_exists.
    apply list_elem_of_In in Hin. by rewrite (Hi x Hin) in Hx. }
  by rewrite Hex, Hm.
Qed.

Lemma unparseable_lock_line_ignored_witness :
  _parse_lock_line 7 "1234  not a lock line" = Ok None.
Proof.
  apply unparseable_lock_line_ignored.
  - discriminate.
  - discriminate.
  - intros ignored Hin. unfold _LOCKS_IGNORED_STARTS in Hin.
    repeat (apply elem_of_cons in Hin as [->|Hin]; [reflexivity|]).
    by apply elem_of_nil in Hin.
  - vm_compute. reflexivity.
Defined.

(** C10: a line that starts with none of the ignored banners and splits
    into one or two words (it is then not the header row) makes the shares
    parser raise [IndexError] when it reads the third word, instead of
    returning [None]; ["foo bar"] is such a line. *)
Theorem short_share_line_IndexError index line :
  (∀ ignored, ignored ∈ _STATUS_IGNORED_STARTS →
              startswith line ignored = false) →
  split line ≠ [] →
  split line ≠ ["Service"; "pid"; "machine"; "Connected"; "at"] →
  length (split line) < 3 →
  _parse_share_line index line = Raise IndexError.
Proof.
  intros Hi Hne Hh Hlen. unfold _parse_share_line.
  assert (Hex : existsb (startswith line) _STATUS_IGNORED_STARTS = false).
  { apply not_true_is_false. intros (x & Hin & Hx)%existsb_exists.
    apply list_elem_of_In in Hin. by rewrite (Hi x Hin) in Hx. }
  rewrite Hex, !bool_decide_eq_false_2 by done.
  destruct (split line) as [|w0 [|w1 [|w2 ws]]]; simpl in *; [done..|lia].
Qed.

Lemma short_share_line_IndexError_witness :
  split "foo bar" = ["foo"; "bar"]
  ∧ _parse_share_line 0 "foo bar" = Raise IndexError.
Proof.
  split; [vm_compute; reflexivity|].
  apply short_share_line_IndexError.
  - intros ignored Hin. unfold _STATUS_IGNORED_STARTS in Hin.
    repeat (apply elem_of_cons in Hin as [->|Hin]; [reflexivity|]).
    by apply elem_of_nil in Hin.
  - vm_compute. discriminate.
  - vm_compute. discriminate.
  - vm_compute. lia.
Defined.

(* ===================================================================== *)
(** * The date fields of the lock pattern *)
(* ===================================================================== *)

Section LockDate.

Lemma Matches_Seq_inv r1 r2 s g s' g' :
  Matches (Seq r1 r2) s g s' g' →
  ∃ s1 g1, Matches r1 s g s1 g1 ∧ Matches r2 s1 g1 s' g'.
Proof. inversion 1; subst. eauto. Qed.

Lemma Matches_Group_inv n r s g s' g' :
  Matches (Group n r) s g s' g' →
  ∃ g0, Matches r s g s' g0 ∧ g' = <[n := consumed s s']> g0.
Proof. inversion 1; subst. eauto. Qed.

Lemma Matches_Cls_inv p s g s' g' :
  Matches (Cls p) s g s' g' → ∃ c, s = String c s' ∧ p c = true ∧ g' = g.
Proof. inversion 1; subst. eauto. Qed.

Lemma Matches_chr_inv c s g s' g' :
  Matches (chr c) s g s' g' → s = String c s' ∧ g' = g.
Proof.
  intros (c' & -> & Hc & ->)%Matches_Cls_inv.
  by apply Ascii.eqb_eq in Hc as ->.
Qed.

Lemma Matches_Eps_inv s g s' g' : Matches Eps s g s' g' → s = s' ∧ g' = g.
Proof. by inversion 1. Qed.

Lemma has_shape_cons_inv p ps s :
  has_shape (p :: ps) s = true →
  ∃ c s', s = String c s' ∧ p c = true ∧ has_shape ps s' = true.
Proof.
  destruct s as [|c s']; simpl; [done|].
  intros [Hp Hs]%andb_true_iff. by exists c, s'.
Qed.

Lemma has_shape_nil_inv s : has_shape [] s = true → s = "".
Proof. by destruct s. Qed.

(** [_TIMEOFDAY] takes exactly the texts [dd:dd:dd]. *)
Lemma tod_Matches tod s g :
  tod_shape tod = true →
  Matches _TIMEOFDAY (tod +:+ s) g s (<["tod" := tod]> g).
Proof.
  intros Hs. unfold tod_shape in Hs.
  do 8 (apply has_shape_cons_inv in Hs as (? & ? & -> & ? & Hs)).
  apply has_shape_nil_inv in Hs as ->.
  match goal with
  | |- Matches _ ?t _ _ (<[_ := ?v]> _) =>
      replace v with (consumed t s) at 2 by apply consumed_app
  end.
  apply M_Group. unfold seqs. rewrite !str_app_cons, str_app_nil_l.
  repeat (eapply M_Seq; [by apply M_Cls|]). by apply M_Cls.
Qed.

Lemma tod_Matches_inv s g s' g' :
  Matches _TIMEOFDAY s g s' g' →
  ∃ tod, s = tod +:+ s' ∧ tod_shape tod = true ∧ g' = <["tod" := tod]> g.
Proof.
  intros (g0 & Hm & ->)%Matches_Group_inv. unfold seqs in Hm.
  do 7 (apply Matches_Seq_inv in Hm as (? & ? & (? & -> & ? & ->)%Matches_Cls_inv & Hm)).
  apply Matches_Cls_inv in Hm as (? & -> & ? & ->).
  eexists (String _ (String _ (String _ (String _ (String _ (String _
            (String _ (String _ "")))))))).
  split; [reflexivity|]. split.
  - unfold tod_shape. cbn [has_shape].
    repeat (apply andb_true_iff; split; [done|]). done.
  - f_equal.
    match goal with |- _ = ?t => exact (consumed_app t s') end.
Qed.

(** [_YEAR] takes exactly the texts [20dd]. *)
Lemma year_Matches year s g :
  year20_shape year = true →
  Matches _YEAR (year +:+ s) g s (<["year" := year]> g).
Proof.
  intros Hs. unfold year20_shape in Hs.
  do 4 (apply has_shape_cons_inv in Hs as (? & ? & -> & ? & Hs)).
  apply has_shape_nil_inv in Hs as ->.
  match goal with
  | |- Matches _ ?t _ _ (<[_ := ?v]> _) =>
      replace v with (consumed t s) at 2 by apply consumed_app
  end.
  apply M_Group. unfold seqs, lit. rewrite !str_app_cons, str_app_nil_l.
  eapply M_Seq.
  - eapply M_Seq; [by apply M_Cls|].
    eapply M_Seq; [by apply M_Cls|apply M_Eps].
  - eapply M_Seq; by apply M_Cls.
Qed.

Lemma year_Matches_inv s g s' g' :
  Matches _YEAR s g s' g' →
  ∃ year, s = year +:+ s' ∧ year20_shape year = true
          ∧ g' = <["year" := year]> g.
Proof.
  intros (g0 & Hm & ->)%Matches_Group_inv. unfold seqs in Hm.
  apply Matches_Seq_inv in Hm as (? & ? & [-> ->]%Matches_lit & Hm).
  apply Matches_Seq_inv in Hm as (? & ? & (? & -> & ? & ->)%Matches_Cls_inv & Hm).
  apply Matches_Cls_inv in Hm as (? & -> & ? & ->).
  eexists (String "2" (String "0" (String _ (String _ "")))).
  split; [reflexivity|]. split.
  - unfold year20_shape. cbn [has_shape].
    repeat (apply andb_true_iff; split; [by apply Ascii.eqb_refl || done|]).
    done.
  - f_equal.
    match goal with |- _ = ?t => exact (consumed_app t s') end.
Qed.

(** A group over an alternation of literals takes exactly these. *)
Lemma group_alts_Matches n ts t s g :
  t ∈ ts →
  Matches (Group n (alts (lit <$> ts))) (t +:+ s) g s (<[n := t]> g).
Proof.
  intros Hin. rewrite <- (consumed_app t s) at 2.
  apply M_Group. by apply alts_lit_Matches.
Qed.

Lemma group_alts_Matches_inv n ts s g s' g' :
  ts ≠ [] → Matches (Group n (alts (lit <$> ts))) s g s' g' →
  ∃ t, t ∈ ts ∧ s = t +:+ s' ∧ g' = <[n := t]> g.
Proof.
  intros Hne (g0 & Hm & ->)%Matches_Group_inv.
  apply Matches_alts_lit in Hm as (t & Hin & -> & ->); [|done].
  exists t. by rewrite consumed_app.
Qed.

Lemma DAYOFMONTH_alts :
  _DAYOFMONTH = Group "dom" (alts (lit <$> (fmt_d 2 <$> seq 0 32))).
Proof. unfold _DAYOFMONTH. by rewrite <- list_fmap_compose. Qed.

(** The five fields, in order, with one blank between them. *)
Lemma DATE_Matches dow moy d tod year rest g :
  dow ∈ day_names → moy ∈ month_names → d ≤ 31 →
  tod_shape tod = true → year20_shape year = true →
  ∃ g', Matches _DATE (lock_text "" dow moy (fmt_d 2 d) tod year rest)
                g rest g'.
Proof.
  intros Hdow Hmoy Hd Htod Hyear. eexists.
  unfold _DATE, lock_text. cbn [seqs]. rewrite str_app_nil_l.
  eapply M_Seq; [by apply group_alts_Matches|].
  eapply M_Seq; [apply M_Cls; reflexivity|].
  eapply M_Seq; [by apply group_alts_Matches|].
  eapply M_Seq; [apply M_Cls; reflexivity|].
  eapply M_Seq.
  { rewrite DAYOFMONTH_alts. apply group_alts_Matches.
    apply list_elem_of_fmap. exists d. split; [done|].
    apply elem_of_seq. lia. }
  eapply M_Seq; [apply M_Cls; reflexivity|].
  eapply M_Seq; [by apply tod_Matches|].
  eapply M_Seq; [apply M_Cls; reflexivity|].
  by apply year_Matches.
Qed.

Lemma DATE_Matches_inv s g rest g' :
  Matches _DATE s g rest g' →
  ∃ dow moy dom tod year,
    s = lock_text "" dow moy dom tod year rest
    ∧ g' = <["year" := year]> (<["tod" := tod]> (<["dom" := dom]>
             (<["moy" := moy]> (<["dow" := dow]> g))))
    ∧ dow ∈ day_names ∧ moy ∈ month_names
    ∧ (∃ d, d ≤ 31 ∧ dom = fmt_d 2 d)
    ∧ tod_shape tod = true ∧ year20_shape year = true.
Proof.
  unfold _DATE. cbn [seqs]. intros Hm.
  apply Matches_Seq_inv in Hm
    as (? & ? & (dow & Hdow & -> & ->)%group_alts_Matches_inv & Hm); [|done].
  apply Matches_Seq_inv in Hm as (? & ? & [-> ->]%Matches_chr_inv & Hm).
  apply Matches_Seq_inv in Hm
    as (? & ? & (moy & Hmoy & -> & ->)%group_alts_Matches_inv & Hm); [|done].
  apply Matches_Seq_inv in Hm as (? & ? & [-> ->]%Matches_chr_inv & Hm).
  rewrite DAYOFMONTH_alts in Hm.
  apply Matches_Seq_inv in Hm
    as (? & ? & (dom & Hdom & -> & ->)%group_alts_Matches_inv & Hm); [|done].
  apply Matches_Seq_inv in Hm as (? & ? & [-> ->]%Matches_chr_inv & Hm).
  apply Matches_Seq_inv in Hm
    as (? & ? & (tod & -> & Htod & ->)%tod_Matches_inv & Hm).
  apply Matches_Seq_inv in Hm as (? & ? & [-> ->]%Matches_chr_inv & Hm).
  apply year_Matches_inv in Hm as (year & -> & Hyear & ->).
  exists dow, moy, dom, tod, year.
  split; [reflexivity|]. split; [reflexivity|].
  split; [done|]. split; [done|]. split; [|done].
  apply list_elem_of_fmap in Hdom as (d & -> & Hd%elem_of_seq).
  exists d. split; [lia|done].
Qed.

Lemma re_fullmatch_Matches r s :
  is_Some (re_fullmatch r s) → ∃ g, Matches r s ∅ "" g.
Proof.
  intros [g Hg]. unfold re_fullmatch in Hg.
  apply rmatch_sound in Hg as (s' & g' & Hm & Hk).
  destruct (String.eqb_spec s' ""); [subst|done]. by exists g'.
Qed.

End LockDate.

(** The lock pattern takes every line made of well-formed columns, a
    weekday and a month abbreviation, a day of the month from 0 to 31
    written on two characters (['%2d']), a time [dd:dd:dd] and a year
    [20dd], with one blank between the date fields; what follows the year
    is not looked at. *)
Theorem lock_date_accepted cols dow moy d tod year rest :
  is_Some (re_fullmatch _LOCK_COLUMNS cols) →
  dow ∈ day_names → moy ∈ month_names → d ≤ 31 →
  tod_shape tod = true → year20_shape year = true →
  is_Some (re_match _REGEX_LOCKED_FILES
             (lock_text cols dow moy (fmt_d 2 d) tod year rest)).
Proof.
  intros [g1 Hc]%re_fullmatch_Matches Hdow Hmoy Hd Htod Hyear.
  destruct (DATE_Matches dow moy d tod year rest g1 Hdow Hmoy Hd Htod Hyear)
    as [g' Hdate].
  apply (Matches_frame _ _ _ _ _
           (lock_text "" dow moy (fmt_d 2 d) tod year rest)) in Hc.
  rewrite str_app_nil_l in Hc.
  unfold re_match, _REGEX_LOCKED_FILES.
  apply (rmatch_complete _ _ _ _ _ (M_Seq _ _ _ _ _ _ _ _ Hc Hdate)).
  by eexists.
Qed.

Lemma lock_date_accepted_witness :
  is_Some (re_match _REGEX_LOCKED_FILES
             (lock_text Examples.lock_columns "Sat" "Jan" (fmt_d 2 17)
                        "14:23:59" "2015" Examples.nl)).
Proof.
  apply lock_date_accepted.
  - apply (bool_decide_eq_true_1 _). vm_compute. reflexivity.
  - unfold day_names. set_solver.
  - unfold month_names. set_solver.
  - lia.
  - vm_compute. reflexivity.
  - vm_compute. reflexivity.
Defined.

(** The date fields of a match of the lock pattern. *)
Lemma locked_match_fields s g rest :
  re_match _REGEX_LOCKED_FILES s = Some (g, rest) →
  ∃ pre dow moy dom tod year,
    s = lock_text pre dow moy dom tod year rest
    ∧ g !! "dow" = Some dow ∧ g !! "moy" = Some moy
    ∧ g !! "dom" = Some dom ∧ g !! "tod" = Some tod
    ∧ g !! "year" = Some year
    ∧ dow ∈ day_names ∧ moy ∈ month_names
    ∧ (∃ d, d ≤ 31 ∧ dom = fmt_d 2 d)
    ∧ tod_shape tod = true ∧ year20_shape year = true.
Proof.
  intros Hm%re_match_Matches. unfold _REGEX_LOCKED_FILES in Hm.
  apply Matches_Seq_inv in Hm as (s1 & g1 & Hc & Hd).
  apply Matches_prefix in Hc as [pre ->].
  apply DATE_Matches_inv in Hd
    as (dow & moy & dom & tod & year & -> & -> & ? & ? & ? & ? & ?).
  exists pre, dow, moy, dom, tod, year.
  split; [reflexivity|].
  split; [by rewrite !lookup_insert_ne, lookup_insert_eq by done|].
  split; [by rewrite !lookup_insert_ne, lookup_insert_eq by done|].
  split; [by rewrite !lookup_insert_ne, lookup_insert_eq by done|].
  split; [by rewrite !lookup_insert_ne, lookup_insert_eq by done|].
  split; [by rewrite lookup_insert_eq|]. done.
Qed.

(** Every match of the lock pattern ends with five date fields of these
    forms, one blank apart: the text is some columns, then the fields, then
    what the match left; the groups [dow], [moy], [dom], [tod] and [year]
    hold the fields.  In particular no year outside 2000 to 2099 and no day
    above 31 is ever matched. *)
Theorem lock_match_date_fields s g rest :
  re_match _REGEX_LOCKED_FILES s = Some (g, rest) →
  ∃ pre dow moy dom tod year,
    s = lock_text pre dow moy dom tod year rest
    ∧ g !! "dow" = Some dow ∧ g !! "moy" = Some moy
    ∧ g !! "dom" = Some dom ∧ g !! "tod" = Some tod
    ∧ g !! "year" = Some year
    ∧ dow ∈ day_names ∧ moy ∈ month_names
    ∧ (∃ d, d ≤ 31 ∧ dom = fmt_d 2 d)
    ∧ tod_shape tod = true ∧ year20_shape year = true.
Proof. apply locked_match_fields. Qed.

Lemma lock_match_date_fields_witness :
  re_match _REGEX_LOCKED_FILES (sub_spaces Examples.lock_line)
  = Some (Examples.lock_groups, Examples.nl)
  ∧ ∃ pre dow moy dom tod year,
      sub_spaces Examples.lock_line
      = lock_text pre dow moy dom tod year Examples.nl
      ∧ Examples.lock_groups !! "dow" = Some dow
      ∧ Examples.lock_groups !! "moy" = Some moy
      ∧ Examples.lock_groups !! "dom" = Some dom
      ∧ Examples.lock_groups !! "tod" = Some tod
      ∧ Examples.lock_groups !! "year" = Some year
      ∧ dow ∈ day_names ∧ moy ∈ month_names
      ∧ (∃ d, d ≤ 31 ∧ dom = fmt_d 2 d)
      ∧ tod_shape tod = true ∧ year20_shape year = true.
Proof.
  assert (Hm : re_match _REGEX_LOCKED_FILES (sub_spaces Examples.lock_line)
               = Some (Examples.lock_groups, Examples.nl))
    by (vm_compute; reflexivity).
  split; [exact Hm|exact (lock_match_date_fields _ _ _ Hm)].
Defined.

(* ===================================================================== *)
(** * Runs of blanks *)
(* ===================================================================== *)

Section Blanks.

Lemma double_blank_cons_ne c s :
  ceq SP c = false → double_blank (String c s) = double_blank s.
Proof.
  intros Hc. destruct s as [|b s]; cbn [double_blank]; [done|].
  by rewrite Hc.
Qed.

Lemma double_blank_flush pending c s :
  ceq SP c = false →
  double_blank (flush pending (String c s)) = double_blank s.
Proof.
  intros Hc. destruct pending as [|[|n]]; simpl flush.
  - by apply double_blank_cons_ne.
  - rewrite <- (double_blank_cons_ne c s Hc). cbn [double_blank].
    by rewrite Hc, andb_false_r.
  - rewrite <- (double_blank_cons_ne c s Hc). by cbn [double_blank].
Qed.

Lemma sub_spaces_go_no_double_blank s : ∀ pending,
  double_blank (sub_spaces_go pending s) = false.
Proof.
  induction s as [|c s IH]; intros pending; cbn [sub_spaces_go].
  - by destruct pending as [|[|n]].
  - destruct (ceq SP c) eqn:Hc; [apply IH|].
    rewrite double_blank_flush by done. apply IH.
Qed.

Lemma double_blank_app_r a t :
  double_blank t = true → double_blank (a +:+ t) = true.
Proof.
  intros Ht. induction a as [|c a IH]; [done|].
  rewrite str_app_cons. destruct (a +:+ t) as [|b u]; [done|].
  change (double_blank (String c (String b u)))
    with ((ceq SP c && ceq SP b) || double_blank (String b u)).
  rewrite IH. apply orb_true_r.
Qed.

Lemma sub_spaces_go_id s :
  double_blank s = false →
  sub_spaces_go 0 s = s
  ∧ (∀ c s', s = String c s' → ceq SP c = false →
             sub_spaces_go 1 s = String SP s)
  ∧ (s = "" → sub_spaces_go 1 s = String SP s).
Proof.
  induction s as [|c s IH]; intros Hd.
  - split; [done|]. split; [done|]. done.
  - assert (Hs : double_blank s = false).
    { destruct s as [|b s]; [done|]. cbn [double_blank] in Hd.
      by apply orb_false_iff in Hd as [_ ?]. }
    destruct (IH Hs) as (I0 & I1 & I2).
    split; [|split; [|done]].
    + cbn [sub_spaces_go]. destruct (ceq SP c) eqn:Hc.
      * apply Ascii.eqb_eq in Hc as <-.
        destruct s as [|b s]; [by rewrite I2|].
        rewrite (I1 b s eq_refl); [done|].
        cbn [double_blank] in Hd. apply orb_false_iff in Hd as [Hd _].
        unfold ceq in Hd. by rewrite Ascii.eqb_refl in Hd.
      * cbn [flush]. by rewrite I0.
    + intros c' s' [= <- <-] Hc. cbn [sub_spaces_go]. rewrite Hc.
      cbn [flush]. by rewrite I0.
Qed.

End Blanks.

(** [re.sub(u'  +', u'\t', line)] leaves no two blanks next to each other;
    it changes nothing in a line that has none, so applying it twice is
    applying it once. *)
Theorem sub_spaces_normal s :
  double_blank (sub_spaces s) = false
  ∧ (double_blank s = false → sub_spaces s = s)
  ∧ sub_spaces (sub_spaces s) = sub_spaces s.
Proof.
  assert (Hn : ∀ t, double_blank (sub_spaces t) = false)
    by (intros t; apply sub_spaces_go_no_double_blank).
  assert (Hi : ∀ t, double_blank t = false → sub_spaces t = t)
    by (intros t Ht; by apply sub_spaces_go_id).
  split; [apply Hn|split; [apply Hi|]]. apply Hi, Hn.
Qed.

(** On a line whose runs of blanks were made tabs, the lock pattern only
    ever matches a day of the month from 10 to 31: a day below 10 is
    written with a blank before it, which with the blank after the month
    makes a run of two. *)
Theorem lock_day_at_least_10 line g rest :
  re_match _REGEX_LOCKED_FILES (sub_spaces line) = Some (g, rest) →
  ∃ d, 10 ≤ d ≤ 31 ∧ g !! "dom" = Some (fmt_d 2 d).
Proof.
  intros Hm.
  destruct (locked_match_fields _ _ _ Hm)
    as (pre & dow & moy & dom & tod & year & Hs & _ & _ & Hdom & _ & _
        & _ & _ & (d & Hd & ->) & _).
  exists d. split; [|done]. split; [|done].
  destruct (decide (10 ≤ d)) as [|Hlt]; [done|]. exfalso.
  assert (Hpad : ∃ c, fmt_d 2 d = String SP (String c "")).
  { assert (Hall : forallb (λ d, match fmt_d 2 d with
                                 | String a (String _ "") => ceq SP a
                                 | _ => false
                                 end) (seq 0 10) = true)
      by (vm_compute; reflexivity).
    rewrite forallb_forall in Hall.
    specialize (Hall d). rewrite in_seq in Hall.
    assert (Hin : 0 ≤ d < 0 + 10) by lia. specialize (Hall Hin).
    destruct (fmt_d 2 d) as [|a [|c [|? ?]]]; try done.
    exists c. by apply Ascii.eqb_eq in Hall as <-. }
  destruct Hpad as [c Hpad].
  pose proof (sub_spaces_go_no_double_blank line 0) as Hn.
  fold (sub_spaces line) in Hn. rewrite Hs in Hn.
  unfold lock_text in Hn. rewrite Hpad in Hn.
  rewrite double_blank_app_r in Hn; [done|].
  do 3 apply double_blank_app_r. reflexivity.
Qed.

Lemma lock_day_at_least_10_witness :
  re_match _REGEX_LOCKED_FILES (sub_spaces Examples.lock_line)
  = Some (Examples.lock_groups, Examples.nl)
  ∧ ∃ d, 10 ≤ d ≤ 31 ∧ Examples.lock_groups !! "dom" = Some (fmt_d 2 d).
Proof.
  assert (Hm : re_match _REGEX_LOCKED_FILES (sub_spaces Examples.lock_line)
               = Some (Examples.lock_groups, Examples.nl))
    by (vm_compute; reflexivity).
  split; [exact Hm|exact (lock_day_at_least_10 _ _ _ Hm)].
Defined.

(* ===================================================================== *)
(** * What the parsers read from a line *)
(* ===================================================================== *)

Section ParserFacts.

Lemma prefix_app p rest : String.prefix p (p +:+ rest) = true.
Proof.
  induction p as [|c p IH]; [by destruct rest|].
  rewrite str_app_cons. simpl. destruct (ascii_dec c c); [exact IH|done].
Qed.

Lemma existsb_startswith l banner rest :
  banner ∈ l → existsb (startswith (banner +:+ rest)) l = true.
Proof.
  intros Hin. apply existsb_exists. exists banner.
  split; [by apply list_elem_of_In|apply prefix_app].
Qed.

Lemma rev_app_app s : ∀ acc, String.rev_app s acc = String.rev s +:+ acc.
Proof.
  unfold String.rev. induction s as [|c s IH]; intros acc; [done|].
  simpl. rewrite (IH (String c acc)), (IH (String c "")).
  by rewrite str_app_assoc.
Qed.

Lemma rev_cons c s : String.rev (String c s) = String.rev s +:+ String c "".
Proof. unfold String.rev at 1. simpl. apply rev_app_app. Qed.

Lemma str_forall_app p s t :
  str_forall p (s +:+ t) = str_forall p s && str_forall p t.
Proof.
  induction s as [|c s IH]; [done|].
  rewrite str_app_cons. simpl. by rewrite IH, andb_assoc.
Qed.

Lemma str_forall_rev p s : str_forall p (String.rev s) = str_forall p s.
Proof.
  induction s as [|c s IH]; [done|].
  rewrite rev_cons, str_forall_app, IH. simpl.
  by rewrite andb_true_r, andb_comm.
Qed.

Lemma rev_nonempty c s : String.rev (String c s) ≠ "".
Proof. rewrite rev_cons. by destruct (String.rev s). Qed.

(** The words of [split] are not empty and hold no blank. *)
Lemma split_go_words isspace s : ∀ cur w,
  (∀ t, cur = Some t → t ≠ "" ∧ str_forall (λ c, negb (isspace c)) t = true) →
  w ∈ split_go isspace cur s →
  w ≠ "" ∧ str_forall (λ c, negb (isspace c)) w = true.
Proof.
  induction s as [|c s IH]; intros cur w Hcur; simpl.
  - destruct cur as [t|]; simpl; [|by intros ?%elem_of_nil].
    intros ->%list_elem_of_singleton.
    destruct (Hcur t eq_refl) as [Hne Hall]. split.
    + destruct t as [|a t]; [done|apply rev_nonempty].
    + by rewrite str_forall_rev.
  - destruct (isspace c) eqn:Hc.
    + intros [Hin|Hin]%elem_of_app.
      * destruct cur as [t|]; simpl in Hin; [|by apply elem_of_nil in Hin].
        apply list_elem_of_singleton in Hin as ->.
        destruct (Hcur t eq_refl) as [Hne Hall]. split.
        -- destruct t as [|a t]; [done|apply rev_nonempty].
        -- by rewrite str_forall_rev.
      * apply (IH None); [done|exact Hin].
    + apply IH. intros t [= <-]. split; [done|]. simpl. rewrite Hc. simpl.
      destruct cur as [t|]; simpl; [by apply (Hcur t)|done].
Qed.

Lemma split_words line w :
  w ∈ split line → w ≠ "" ∧ str_forall not_space w = true.
Proof. apply (split_go_words uni_isspace line None). done. Qed.

(** The result of [basename] ends the path and has no slash. *)
Lemma basename_go_suffix s : ∀ acc,
  ∃ pre, String.rev acc +:+ s = pre +:+ basename_go acc s.
Proof.
  induction s as [|c s IH]; intros acc; cbn [basename_go].
  - exists "". by rewrite str_app_nil_r.
  - destruct (ceq "/" c) eqn:Hc.
    + destruct (IH "") as [pre Hpre].
      change (String.rev "" +:+ s) with s in Hpre.
      exists (String.rev acc +:+ String c pre).
      rewrite str_app_assoc. f_equal. rewrite str_app_cons. by f_equal.
    + destruct (IH (String c acc)) as [pre Hpre]. exists pre.
      rewrite <- Hpre, rev_cons, str_app_assoc. done.
Qed.

Lemma basename_go_no_slash s : ∀ acc,
  str_forall not_slash acc = true →
  str_forall not_slash (basename_go acc s) = true.
Proof.
  induction s as [|c s IH]; intros acc Hacc; cbn [basename_go].
  - by rewrite str_forall_rev.
  - destruct (ceq "/" c) eqn:Hc; [by apply IH|].
    apply IH. cbn [str_forall]. unfold not_slash at 1. by rewrite Hc.
Qed.

End ParserFacts.

(** A line that starts with one of the ignored banners is ignored by its
    parser, whatever follows the banner: the parser returns [None] and
    reads nothing else of the line. *)
Theorem banner_lines_ignored index banner rest :
  (banner ∈ _STATUS_IGNORED_STARTS →
   _parse_share_line index (banner +:+ rest) = Ok None)
  ∧ (banner ∈ _LOCKS_IGNORED_STARTS →
     _parse_lock_line index (banner +:+ rest) = Ok None).
Proof.
  split; intros Hin.
  - unfold _parse_share_line. by rewrite existsb_startswith.
  - unfold _parse_lock_line. rewrite existsb_startswith by done.
    by destruct (_ || _)%bool.
Qed.

(** A record of the shares parser is made of the words of the line: the
    line has at least three words, [share] is the first one (not empty and
    without a blank), [machine] the third, [date] the normalized text of
    the words after the third joined by one blank; the second word, the
    pid, is in no field. *)
Theorem share_record_of_words index line v :
  _parse_share_line index line = Ok (Some v) →
  ∃ share pid machine words date,
    split line = share :: pid :: machine :: words
    ∧ _normdate (join " " words) = Ok date
    ∧ v = <["share" := share]>
            (<["machine" := machine]> {["date" := date]})
    ∧ share ≠ "" ∧ str_forall not_space share = true.
Proof.
  unfold _parse_share_line.
  destruct (existsb _ _); [done|].
  destruct (bool_decide (split line = [])); [done|].
  destruct (bool_decide (split line = _)); [done|].
  destruct (split line) as [|share [|pid [|machine words]]] eqn:Hsp;
    try done.
  simpl. intros (date & Hd & [= <-])%rbind_Ok.
  exists share, pid, machine, words, date.
  split; [done|split; [done|split; [done|]]].
  apply (split_words line). rewrite Hsp. apply list_elem_of_here.
Qed.

Lemma share_record_of_words_witness :
  _parse_share_line 0 Examples.share_line
  = Ok (Some (<["share" := "public"]> Examples.connection_public))
  ∧ ∃ share pid machine words date,
      split Examples.share_line = share :: pid :: machine :: words
      ∧ _normdate (join " " words) = Ok date
      ∧ <["share" := "public"]> Examples.connection_public
        = <["share" := share]>
            (<["machine" := machine]> {["date" := date]})
      ∧ share ≠ "" ∧ str_forall not_space share = true.
Proof.
  assert (Hp : _parse_share_line 0 Examples.share_line
               = Ok (Some (<["share" := "public"]>
                             Examples.connection_public)))
    by (vm_compute; reflexivity).
  split; [exact Hp|exact (share_record_of_words _ _ _ Hp)].
Defined.



(** The locks parser raises nothing but [ValueError], and only on a line
    the pattern matched: every field it then reads is a group of the
    match, so no lookup fails. *)
Theorem lock_parser_raises index line e :
  _parse_lock_line index line = Raise e →
  e = ValueError
  ∧ is_Some (re_match _REGEX_LOCKED_FILES (sub_spaces line)).
Proof.
  unfold _parse_lock_line.
  destruct (_ || _)%bool; [done|].
  destruct (existsb _ _); [done|].
  destruct (re_match _ _) as [[g rest]|] eqn:Hm; [|done].
  pose proof (re_match_locked_dom _ _ _ Hm) as Hdom.
  assert (Hget : ∀ k, k ∈ dom g → ∃ x, getitem g k = Ok x).
  { intros k [x Hx]%elem_of_dom. exists x. unfold getitem. by rewrite Hx. }
  rewrite Hdom in Hget.
  destruct (Hget "dow") as [dow ->]; [set_solver|].
  destruct (Hget "moy") as [moy ->]; [set_solver|].
  destruct (Hget "dom") as [dom' ->]; [set_solver|].
  destruct (Hget "tod") as [tod ->]; [set_solver|].
  destruct (Hget "year") as [year ->]; [set_solver|].
  destruct (Hget "sharePath") as [sp Hsp]; [set_solver|].
  simpl. intros [H%normdate_Raise|(date & _ & H)]%rbind_Raise;
    [by split|].
  exfalso. revert H. unfold getitem.
  rewrite lookup_insert_ne by done.
  rewrite !lookup_delete_ne by done.
  unfold getitem in Hsp. destruct (g !! "sharePath"); [done|done].
Qed.

Lemma lock_parser_raises_witness :
  _parse_lock_line 0
    ("1234  1000  DENY_NONE  0x120089  RDONLY  NONE  /srv/public  "
     +:+ "notes.txt  Mon Feb 30 14:23:59 2015")
  = Raise ValueError
  ∧ ValueError = ValueError.
Proof.
  assert (Hp : _parse_lock_line 0
                 ("1234  1000  DENY_NONE  0x120089  RDONLY  NONE  "
                  +:+ "/srv/public  notes.txt  Mon Feb 30 14:23:59 2015")
               = Raise ValueError) by (vm_compute; reflexivity).
  split; [exact Hp|exact (proj1 (lock_parser_raises _ _ _ Hp))].
Defined.

(** The [share] of a record of the locks parser is the last component of
    the share path the pattern captured: the path ends with it, and it has
    no slash. *)
Theorem lock_record_share index line v :
  _parse_lock_line index line = Ok (Some v) →
  ∃ g rest sharePath pre,
    re_match _REGEX_LOCKED_FILES (sub_spaces line) = Some (g, rest)
    ∧ g !! "sharePath" = Some sharePath
    ∧ v !! "share" = Some (basename sharePath)
    ∧ sharePath = pre +:+ basename sharePath
    ∧ str_forall not_slash (basename sharePath) = true.
Proof.
  unfold _parse_lock_line.
  destruct (_ || _)%bool; [done|].
  destruct (existsb _ _); [done|].
  destruct (re_match _ _) as [[g rest]|] eqn:Hm; [|done].
  intros H. do 6 apply rbind_Ok in H as (? & _ & H).
  apply rbind_Ok in H as (sp & Hsp & H). injection H as <-.
  unfold getitem in Hsp. cbn [foldl] in Hsp.
  rewrite lookup_insert_ne in Hsp by done.
  rewrite !lookup_delete_ne in Hsp by done.
  destruct (g !! "sharePath") as [sp'|] eqn:Hg; [|done].
  injection Hsp as ->.
  destruct (basename_go_suffix sp "") as [pre Hpre].
  exists g, rest, sp, pre. split; [done|split; [done|]].
  split; [by rewrite lookup_insert_eq|]. split; [exact Hpre|].
  by apply basename_go_no_slash.
Qed.

Lemma lock_record_share_witness :
  _parse_lock_line 0 Examples.lock_line
  = Ok (Some (<["share" := "public"]> Examples.lock_public))
  ∧ ∃ g rest sharePath pre,
      re_match _REGEX_LOCKED_FILES (sub_spaces Examples.lock_line)
      = Some (g, rest)
      ∧ g !! "sharePath" = Some sharePath
      ∧ (<["share" := "public"]> Examples.lock_public) !! "share"
        = Some (basename sharePath)
      ∧ sharePath = pre +:+ basename sharePath
      ∧ str_forall not_slash (basename sharePath) = true.
Proof.
  assert (Hp : _parse_lock_line 0 Examples.lock_line
               = Ok (Some (<["share" := "public"]> Examples.lock_public)))
    by (vm_compute; reflexivity).
  split; [exact Hp|exact (lock_record_share _ _ _ Hp)].
Defined.

(* ===================================================================== *)
(** * Run of [stats]: what is run, what is raised, what is returned *)
(* ===================================================================== *)

Section WellTraced.

Lemma well_traced_ret {A} (a : A) : well_traced (mret a).
Proof. intros e. split; [by intros ?%elem_of_nil|done]. Qed.

Lemma well_traced_raise {A} e0 : well_traced (raise (A:=A) e0).
Proof.
  intros e. simpl. rewrite list_elem_of_singleton. split.
  - by intros [= ->].
  - by intros [= ->].
Qed.

Lemma well_traced_call {A} (r : result A) : well_traced (call r).
Proof. destruct r; [apply well_traced_ret|apply well_traced_raise]. Qed.

Lemma well_traced_bind {A B} (m : M A) (f : A → M B) :
  well_traced m → (∀ a, well_traced (f a)) → well_traced (m ≫= f).
Proof.
  intros Hm Hf e. rewrite trace_bind, outcome_bind, elem_of_app.
  specialize (Hm e). destruct (outcome m) as [a|e0] eqn:Ho.
  - rewrite <- (Hf a e). split; [|by right].
    intros [Hin|Hin]; [|done]. by apply Hm in Hin.
  - split.
    + intros [Hin|Hin]; [|by apply elem_of_nil in Hin].
      apply Hm in Hin. by injection Hin as ->.
    + intros [= ->]. left. by apply Hm.
Qed.

Lemma well_traced_for_fold {A S} (step : S → A → M S) l :
  (∀ acc x, well_traced (step acc x)) →
  ∀ acc, well_traced (for_fold step acc l).
Proof.
  intros Hs. induction l as [|x l IH]; intros acc; simpl.
  - apply well_traced_ret.
  - apply well_traced_bind; [apply Hs|apply IH].
Qed.

Lemma well_traced_smbstatus_cmd h command test :
  well_traced (_smbstatus_cmd h command test).
Proof.
  unfold _smbstatus_cmd. destruct test; simpl.
  - apply (well_traced_ret (A:=list string)).
  - destruct (bool_decide _); intros e; unfold trace, outcome; simpl.
    + rewrite elem_of_cons, list_elem_of_singleton. split.
      * by intros [[=]|[= ->]].
      * intros [= ->]. by right.
    + rewrite list_elem_of_singleton. by split.
Qed.

Lemma well_traced_data_step parser index line :
  well_traced (data_step parser index line).
Proof.
  unfold data_step. apply well_traced_bind; [apply well_traced_call|].
  intros [v|]; [|apply well_traced_ret].
  apply well_traced_bind.
  - destruct (v !! "date") as [d|]; [|apply well_traced_ret].
    destruct (bool_decide _);
      [apply well_traced_ret|apply well_traced_raise].
  - intros _. apply well_traced_bind; [apply well_traced_call|].
    intros share. apply well_traced_ret.
Qed.

Lemma well_traced_data_loop parser lines :
  ∀ index, well_traced (data_loop parser index lines).
Proof.
  induction lines as [|line lines IH]; intros index; simpl.
  - apply well_traced_ret.
  - apply well_traced_bind; [apply well_traced_data_step|].
    intros y. apply well_traced_bind; [apply IH|].
    intros ys. apply well_traced_ret.
Qed.

Lemma well_traced_smbstatus_data h command parser test :
  well_traced (_smbstatus_data h command parser test).
Proof.
  apply well_traced_bind; [apply well_traced_smbstatus_cmd|].
  intros lines. apply well_traced_data_loop.
Qed.

Lemma well_traced_stat_step h acc directory :
  well_traced (stat_step h acc directory).
Proof.
  unfold stat_step.
  destruct (bool_decide _); intros e; unfold trace, outcome; simpl.
  - rewrite elem_of_cons, list_elem_of_singleton. split.
    + by intros [[=]|[= ->]].
    + intros [= ->]. by right.
  - rewrite list_elem_of_singleton. by split.
Qed.

Lemma well_traced_space_step sd acc mount_point :
  well_traced (space_step sd acc mount_point).
Proof.
  unfold space_step.
  repeat (apply well_traced_bind; [apply well_traced_call|intros ?]).
  apply well_traced_ret.
Qed.

Lemma well_traced_avail_space h : well_traced (_avail_space h).
Proof.
  unfold _avail_space, resolve_mount_points. apply well_traced_bind.
  - apply well_traced_for_fold. apply well_traced_stat_step.
  - intros d2m. apply well_traced_bind.
    + apply well_traced_for_fold. apply well_traced_space_step.
    + intros si. apply well_traced_ret.
Qed.

Lemma well_traced_stats_try h test : well_traced (stats_try h test).
Proof.
  unfold stats_try.
  apply well_traced_bind; [apply well_traced_smbstatus_data|intros su].
  apply well_traced_bind; [apply well_traced_smbstatus_data|intros sl].
  apply well_traced_bind; [apply well_traced_avail_space|intros a].
  apply well_traced_ret.
Qed.

End WellTraced.

(** [stats] never lets [SmbstatusError] through, and what it returns is
    either exactly [{'in_error': True}] or a mapping with exactly the keys
    [in_error], [status] and [avail_space] whose [in_error] is [False]. *)
Theorem stats_outcomes h test :
  (∀ msg, outcome (stats h test) ≠ Raise (SmbstatusError msg))
  ∧ ∀ r, outcome (stats h test) = Ok r →
         r = {["in_error" := VBool true]}
         ∨ (dom r = {["in_error"; "status"; "avail_space"]}
            ∧ r !! "in_error" = Some (VBool false)
            ∧ (∃ u, r !! "status" = Some (VStatus u))
            ∧ ∃ a, r !! "avail_space" = Some (VAvail a)).
Proof.
  rewrite outcome_stats. split.
  - intros msg.
    destruct (outcome (stats_try h test)) as [[u a]|e]; [done|].
    by destruct e.
  - intros r.
    destruct (outcome (stats_try h test)) as [[u a]|e].
    + intros [= <-]. right. split; [|split; [|split]].
      * rewrite !dom_insert_L, dom_singleton_L. set_solver.
      * by rewrite lookup_insert_eq.
      * exists u. by rewrite lookup_insert_ne, lookup_insert_eq.
      * exists a. by rewrite !lookup_insert_ne, lookup_singleton_eq.
    + destruct e; try done. intros [= <-]. by left.
Qed.

(** [stats] returns [{'in_error': True}] exactly when [SmbstatusError] was
    raised during the run: no other exception and no other event gives
    this report. *)
Theorem in_error_iff_SmbstatusError h test :
  outcome (stats h test) = Ok {["in_error" := VBool true]}
  ↔ ∃ msg, EvRaise (SmbstatusError msg) ∈ trace (stats h test).
Proof.
  rewrite trace_stats, outcome_stats. split.
  - destruct (outcome (stats_try h test)) as [[u a]|e] eqn:Ho.
    + intros H.
      apply (f_equal (λ o : result report,
                        match o with
                        | Ok r => r !! "in_error"
                        | Raise _ => None
                        end)) in H.
      by rewrite lookup_insert_eq, lookup_singleton_eq in H.
    + destruct e; try done. intros _. exists msg.
      by apply well_traced_stats_try.
  - intros [msg Hin]. apply well_traced_stats_try in Hin. by rewrite Hin.
Qed.

Section Traced.

Context (P : event → Prop).

Lemma traced_ret {A} (a : A) : traced P (mret a).
Proof. constructor. Qed.

Lemma traced_raise {A} e : P (EvRaise e) → traced P (raise (A:=A) e).
Proof. intros He. by constructor. Qed.

Lemma traced_call {A} (r : result A) :
  (∀ e, P (EvRaise e)) → traced P (call r).
Proof. intros He. destruct r; [apply traced_ret|by apply traced_raise]. Qed.

Lemma traced_bind {A B} (m : M A) (f : A → M B) :
  traced P m → (∀ a, traced P (f a)) → traced P (m ≫= f).
Proof.
  intros Hm Hf. unfold traced. rewrite trace_bind. apply Forall_app.
  split; [done|]. destruct (outcome m); [apply Hf|constructor].
Qed.

Lemma traced_for_fold {A S} (step : S → A → M S) l :
  (∀ acc x, traced P (step acc x)) → ∀ acc, traced P (for_fold step acc l).
Proof.
  intros Hs. induction l as [|x l IH]; intros acc; simpl.
  - apply traced_ret.
  - apply traced_bind; [apply Hs|apply IH].
Qed.

Lemma traced_data_loop parser lines :
  (∀ e, P (EvRaise e)) → ∀ index, traced P (data_loop parser index lines).
Proof.
  intros He. induction lines as [|line lines IH]; intros index; simpl.
  - apply traced_ret.
  - apply traced_bind.
    + unfold data_step. apply traced_bind; [by apply traced_call|].
      intros [v|]; [|apply traced_ret]. apply traced_bind.
      * destruct (v !! "date"); [|apply traced_ret].
        destruct (bool_decide _); [apply traced_ret|by apply traced_raise].
      * intros _. apply traced_bind; [by apply traced_call|].
        intros share. apply traced_ret.
    + intros y. apply traced_bind; [apply IH|]. intros ys. apply traced_ret.
Qed.

Lemma traced_avail_space h :
  (∀ e, P (EvRaise e)) → (∀ d rc, P (EvStat d rc)) →
  traced P (_avail_space h).
Proof.
  intros He Hs. unfold _avail_space, resolve_mount_points.
  apply traced_bind.
  - apply traced_for_fold. intros acc d. unfold stat_step.
    destruct (bool_decide _); unfold traced, trace; simpl.
    + repeat constructor; done.
    + repeat constructor; done.
  - intros d2m. apply traced_bind; [|intros si; apply traced_ret].
    apply traced_for_fold. intros acc mp. unfold space_step.
    repeat (apply traced_bind; [by apply traced_call|intros ?]).
    apply traced_ret.
Qed.

End Traced.

(** In test mode [stats] runs no [smbstatus] subprocess: the lines come
    from the sample files only.  (The [stat] queries of the disk-usage
    step are still run.) *)
Theorem test_mode_runs_no_smbstatus h command rc :
  EvSmbstatus command rc ∉ trace (stats h true).
Proof.
  rewrite trace_stats. intros Hin.
  assert (Ht : traced not_smbstatus (stats_try h true)).
  { unfold stats_try.
    assert (Hg : ∀ cmd parser,
               traced not_smbstatus (_smbstatus_data h cmd parser true)).
    { intros cmd parser. unfold _smbstatus_data. apply traced_bind.
      - unfold _smbstatus_cmd. simpl. constructor.
      - intros lines. by apply traced_data_loop. }
    apply traced_bind; [apply Hg|intros su].
    apply traced_bind; [apply Hg|intros sl].
    apply traced_bind; [by apply traced_avail_space|intros a].
    apply traced_ret. }
  unfold traced in Ht. rewrite Forall_forall in Ht.
  by apply (Ht _ Hin).
Qed.

(** When [smbstatus --shares] exits with a status other than 0, the run
    stops there: [stats] runs neither [smbstatus --locks] nor any [stat]
    query, the error raised carries the standard error of the command,
    and the report is [{'in_error': True}]. *)
Theorem shares_failure_stops_run h :
  retcode (smbstatus_of h "shares") ≠ 0%Z →
  trace (stats h false)
  = [EvSmbstatus "shares" (retcode (smbstatus_of h "shares"));
     EvRaise (SmbstatusError (stderr (smbstatus_of h "shares")))]
  ∧ outcome (stats h false) = Ok {["in_error" := VBool true]}.
Proof.
  intros Hrc.
  assert (Hcmd : _smbstatus_cmd h "shares" false
                 = ([EvSmbstatus "shares" (retcode (smbstatus_of h "shares"));
                     EvRaise (SmbstatusError
                                (stderr (smbstatus_of h "shares")))],
                    Raise (SmbstatusError
                             (stderr (smbstatus_of h "shares"))))).
  { unfold _smbstatus_cmd. simpl. fold (smbstatus_of h "shares").
    by rewrite bool_decide_eq_true_2. }
  assert (Hb : stats_try h false
               = ([EvSmbstatus "shares" (retcode (smbstatus_of h "shares"));
                   EvRaise (SmbstatusError
                              (stderr (smbstatus_of h "shares")))],
                  Raise (SmbstatusError
                           (stderr (smbstatus_of h "shares"))))).
  { unfold stats_try, _smbstatus_data. by rewrite Hcmd. }
  split.
  - by rewrite trace_stats, Hb.
  - by rewrite outcome_stats, Hb.
Qed.

Lemma shares_failure_stops_run_witness :
  retcode (smbstatus_of Examples.host_shares_fail "shares") ≠ 0%Z
  ∧ trace (stats Examples.host_shares_fail false)
    = [EvSmbstatus "shares" 1;
       EvRaise (SmbstatusError "smbstatus: failed")].
Proof.
  assert (Hrc : retcode (smbstatus_of Examples.host_shares_fail "shares")
                ≠ 0%Z) by (vm_compute; discriminate).
  split; [exact Hrc|].
  destruct (shares_failure_stops_run _ Hrc) as [-> _].
  vm_compute. reflexivity.
Defined.

(* ===================================================================== *)
(** * The collector, directory by directory *)
(* ===================================================================== *)

Section Collector.

Lemma stat_step_ok h acc directory :
  retcode (stat_of h directory) = 0%Z →
  stat_step h acc directory
  = ([EvStat directory 0],
     Ok (<[directory := strip (stdout (stat_of h directory))]> acc)).
Proof.
  intros Hrc. unfold stat_step. fold (stat_of h directory).
  rewrite bool_decide_eq_false_2 by (rewrite Hrc; intros Hne; by apply Hne).
  simpl.
  by rewrite Hrc.
Qed.

Lemma stat_step_fail h acc directory :
  retcode (stat_of h directory) ≠ 0%Z →
  stat_step h acc directory
  = ([EvStat directory (retcode (stat_of h directory));
      EvRaise (SmbstatusError (stderr (stat_of h directory)))],
     Raise (SmbstatusError (stderr (stat_of h directory)))).
Proof.
  intros Hrc. unfold stat_step. fold (stat_of h directory).
  by rewrite bool_decide_eq_true_2.
Qed.

(** The first loop when it ends well: every query succeeded and every
    directory is mapped to the stripped output of its query. *)
Lemma stat_fold_Ok h l : ∀ acc r,
  outcome (for_fold (stat_step h) acc l) = Ok r →
  (∀ d, d ∈ l → retcode (stat_of h d) = 0%Z)
  ∧ ∀ d, r !! d = if decide (d ∈ l)
                  then Some (strip (stdout (stat_of h d)))
                  else acc !! d.
Proof.
  induction l as [|x l IH]; intros acc r; cbn [for_fold].
  - intros [= <-]. split; [by intros d ?%elem_of_nil|].
    intros d. by destruct (decide (d ∈ [])) as [?%elem_of_nil|].
  - rewrite outcome_bind.
    destruct (decide (retcode (stat_of h x) = 0%Z)) as [Hrc|Hrc].
    + rewrite (stat_step_ok _ _ _ Hrc). cbn [outcome snd]. intros Hr.
      destruct (IH _ _ Hr) as [Hall Hlook]. split.
      * intros d [->|Hd]%elem_of_cons; [done|by apply Hall].
      * intros d. rewrite Hlook.
        destruct (decide (d ∈ l)) as [Hd|Hd];
          destruct (decide (d ∈ x :: l)) as [Hd'|Hd']; try done.
        -- destruct Hd'. by apply list_elem_of_further.
        -- apply elem_of_cons in Hd' as [->|Hd']; [|done].
           by rewrite lookup_insert_eq.
        -- rewrite lookup_insert_ne; [done|]. intros <-.
           apply Hd', list_elem_of_here.
    + by rewrite (stat_step_fail _ _ _ Hrc).
Qed.

(** The first loop up to the first query that fails. *)
Lemma stat_fold_fail h dirs1 directory dirs2 : ∀ acc,
  (∀ d, d ∈ dirs1 → retcode (stat_of h d) = 0%Z) →
  retcode (stat_of h directory) ≠ 0%Z →
  for_fold (stat_step h) acc (dirs1 ++ directory :: dirs2)
  = (((λ d, EvStat d 0) <$> dirs1)
     ++ [EvStat directory (retcode (stat_of h directory));
         EvRaise (SmbstatusError (stderr (stat_of h directory)))],
     Raise (SmbstatusError (stderr (stat_of h directory)))).
Proof.
  intros acc H1 Hrc. revert acc.
  induction dirs1 as [|x l IH]; intros acc; cbn [app for_fold].
  - by rewrite (stat_step_fail _ _ _ Hrc).
  - rewrite stat_step_ok by (apply H1, list_elem_of_here).
    unfold mbind at 1, M_bind at 1. cbn beta iota.
    rewrite IH; [done|]. intros d Hd. by apply H1, list_elem_of_further.
Qed.

(** The second loop when it ends well: every entry comes from the
    disk-usage data, field by field. *)
Lemma space_fold_Ok sd l : ∀ acc r,
  outcome (for_fold (space_step sd) acc l) = Ok r →
  ∀ mp ms, r !! mp = Some ms →
    acc !! mp = Some ms
    ∨ ∃ info, sd !! mp = Some info
              ∧ info !! "used" = Some (used ms)
              ∧ info !! "available" = Some (available ms)
              ∧ info !! "1K-blocks" = Some (total ms).
Proof.
  induction l as [|x l IH]; intros acc r; simpl.
  - intros [= <-] mp ms Hms. by left.
  - rewrite outcome_bind, outcome_space_step.
    destruct (sd !! x) as [info|] eqn:Hx; [|done].
    destruct (info !! "used") as [u|] eqn:Hu; [|done].
    destruct (info !! "available") as [a|] eqn:Ha; [|done].
    destruct (info !! "1K-blocks") as [t|] eqn:Ht; [|done].
    intros Hr mp ms Hms.
    destruct (IH _ _ Hr mp ms Hms) as [Hacc|Hinfo]; [|by right].
    destruct (decide (mp = x)) as [->|Hne].
    + rewrite lookup_insert_eq in Hacc. injection Hacc as <-.
      right. by exists info.
    + rewrite lookup_insert_ne in Hacc by done. by left.
Qed.

End Collector.

(** When the collector returns, ['mount_points'] has exactly the
    configured directories (['/mnt/samba'] when the pillar has none), each
    mapped to the output of its [stat] query without the blanks around it,
    every query having exited with status 0; and every entry of
    ['disk_usage'] has the [used], [available] and [1K-blocks] figures of
    the host's disk-usage data for that mount point, unchanged, the last
    one under the name [total]. *)
Theorem avail_space_content h a :
  outcome (_avail_space h) = Ok a →
  dom (mount_points a)
  = list_to_set (default ["/mnt/samba"] (pillar_samba_dirs h))
  ∧ (∀ directory,
       directory ∈ default ["/mnt/samba"] (pillar_samba_dirs h) →
       retcode (stat_of h directory) = 0%Z
       ∧ mount_points a !! directory
         = Some (strip (stdout (stat_of h directory))))
  ∧ ∀ mount_point ms,
      space_info a !! mount_point = Some ms →
      ∃ info, disk_usage h !! mount_point = Some info
              ∧ info !! "used" = Some (used ms)
              ∧ info !! "available" = Some (available ms)
              ∧ info !! "1K-blocks" = Some (total ms).
Proof.
  unfold _avail_space, resolve_mount_points. intros H.
  apply outcome_bind_Ok in H as (d2m & Hd2m & H).
  apply outcome_bind_Ok in H as (si & Hsi & H).
  simpl in H. injection H as <-. simpl.
  destruct (stat_fold_Ok _ _ _ _ Hd2m) as [Hall Hlook].
  split; [|split].
  - apply set_eq. intros d.
    rewrite elem_of_dom, elem_of_list_to_set, Hlook.
    destruct (decide (d ∈ _)) as [Hd|Hd].
    + split; [done|by eexists].
    + rewrite lookup_empty. split; [by intros [? ?]|done].
  - intros d Hd. split; [by apply Hall|].
    rewrite Hlook. by destruct (decide (d ∈ _)).
  - intros mp ms Hms.
    destruct (space_fold_Ok _ _ _ _ Hsi mp ms Hms) as [Hacc|Hinfo];
      [by rewrite lookup_empty in Hacc|done].
Qed.

Lemma avail_space_content_witness :
  outcome (_avail_space Examples.host_public) = Ok Examples.avail_public
  ∧ dom (mount_points Examples.avail_public)
    = list_to_set ["/mnt/a"; "/mnt/b"].
Proof.
  assert (Ho : outcome (_avail_space Examples.host_public)
               = Ok Examples.avail_public) by (vm_compute; reflexivity).
  split; [exact Ho|exact (proj1 (avail_space_content _ _ Ho))].
Defined.

(** When the [stat] query of a configured directory exits with a status
    other than 0, the queries before it having succeeded, the collector
    stops there: it raises [SmbstatusError] with the standard error of
    that query, runs no query for the directories after it and does not
    look at the disk-usage data. *)
Theorem stat_failure_stops_collection h dirs1 directory dirs2 :
  default ["/mnt/samba"] (pillar_samba_dirs h)
  = dirs1 ++ directory :: dirs2 →
  (∀ d, d ∈ dirs1 → retcode (stat_of h d) = 0%Z) →
  retcode (stat_of h directory) ≠ 0%Z →
  outcome (_avail_space h)
  = Raise (SmbstatusError (stderr (stat_of h directory)))
  ∧ trace (_avail_space h)
    = ((λ d, EvStat d 0) <$> dirs1)
      ++ [EvStat directory (retcode (stat_of h directory));
          EvRaise (SmbstatusError (stderr (stat_of h directory)))].
Proof.
  intros Hdirs H1 Hrc. unfold _avail_space, resolve_mount_points.
  rewrite Hdirs, (stat_fold_fail _ _ _ _ _ H1 Hrc). by split.
Qed.

Lemma stat_failure_stops_collection_witness :
  outcome (_avail_space host_stat_fail)
  = Raise (SmbstatusError "stat: cannot stat '/mnt/b'")
  ∧ trace (_avail_space host_stat_fail)
    = [EvStat "/mnt/a" 0; EvStat "/mnt/b" 1;
       EvRaise (SmbstatusError "stat: cannot stat '/mnt/b'")].
Proof.
  destruct (stat_failure_stops_collection host_stat_fail
              ["/mnt/a"] "/mnt/b" ["/mnt/c"]) as [Ho Ht].
  - reflexivity.
  - intros d ->%list_elem_of_singleton. vm_compute. reflexivity.
  - vm_compute. discriminate.
  - split; [exact Ho|exact Ht].
Defined.

(* ===================================================================== *)
(** * The entries of [status] *)
(* ===================================================================== *)

Section Entries.

Lemma records_of_cons name x l :
  records_of name (x :: l)
  = if decide (x.1 = name) then x.2 :: records_of name l
    else records_of name l.
Proof.
  unfold records_of. rewrite filter_cons.
  by destruct (decide (x.1 = name)).
Qed.

Lemma records_of_nil name l : name ∉ l.*1 → records_of name l = [].
Proof.
  induction l as [|x l IH]; [done|]. intros Hn.
  rewrite records_of_cons. rewrite fmap_cons, not_elem_of_cons in Hn.
  destruct Hn as [Hne Hn]. rewrite decide_False by done. by apply IH.
Qed.

Lemma dd_get_insert_eq u k it : dd_get (<[k := it]> u) k = it.
Proof. unfold dd_get. by rewrite lookup_insert_eq. Qed.

Lemma dd_get_insert_ne u k k' it :
  k ≠ k' → dd_get (<[k := it]> u) k' = dd_get u k'.
Proof. intros Hne. unfold dd_get. by rewrite lookup_insert_ne. Qed.

(** The entry of a share after the first loop of [stats]. *)
Lemma foldl_add_machine_lookup l : ∀ u k,
  foldl add_machine u l !! k
  = if decide (k ∈ l.*1)
    then Some (mk_share_item (machines (dd_get u k) ++ records_of k l)
                             (locked_files (dd_get u k)))
    else u !! k.
Proof.
  induction l as [|x l IH]; intros u k; cbn [foldl].
  - by destruct (decide (k ∈ [])) as [?%elem_of_nil|].
  - rewrite IH, records_of_cons, fmap_cons. unfold add_machine.
    destruct (decide (x.1 = k)) as [<-|Hne].
    + rewrite dd_get_insert_eq, lookup_insert_eq. cbn [machines locked_files].
      rewrite (decide_True (P := x.1 ∈ x.1 :: l.*1))
        by apply list_elem_of_here.
      destruct (decide (x.1 ∈ l.*1)) as [Hin|Hnin].
      * by rewrite <- app_assoc.
      * by rewrite (records_of_nil _ _ Hnin).
    + rewrite dd_get_insert_ne, lookup_insert_ne by done.
      destruct (decide (k ∈ l.*1)) as [Hin|Hnin].
      * rewrite decide_True; [done|by apply list_elem_of_further].
      * rewrite decide_False; [done|].
        intros [?|?]%elem_of_cons; done.
Qed.

(** The entry of a share after the second loop of [stats]. *)
Lemma foldl_add_locked_file_lookup l : ∀ u k,
  foldl add_locked_file u l !! k
  = if decide (k ∈ l.*1)
    then Some (mk_share_item (machines (dd_get u k))
                             (locked_files (dd_get u k) ++ records_of k l))
    else u !! k.
Proof.
  induction l as [|x l IH]; intros u k; cbn [foldl].
  - by destruct (decide (k ∈ [])) as [?%elem_of_nil|].
  - rewrite IH, records_of_cons, fmap_cons. unfold add_locked_file.
    destruct (decide (x.1 = k)) as [<-|Hne].
    + rewrite dd_get_insert_eq, lookup_insert_eq. cbn [machines locked_files].
      rewrite (decide_True (P := x.1 ∈ x.1 :: l.*1))
        by apply list_elem_of_here.
      destruct (decide (x.1 ∈ l.*1)) as [Hin|Hnin].
      * by rewrite <- app_assoc.
      * by rewrite (records_of_nil _ _ Hnin).
    + rewrite dd_get_insert_ne, lookup_insert_ne by done.
      destruct (decide (k ∈ l.*1)) as [Hin|Hnin].
      * rewrite decide_True; [done|by apply list_elem_of_further].
      * rewrite decide_False; [done|].
        intros [?|?]%elem_of_cons; done.
Qed.

End Entries.

(** In the report of a run that ended well, the entry of a share holds, in
    [machines], the connection records the shares generator yielded for
    that share and, in [locked_files], the lock records the locks generator
    yielded for it, each in the order of the lines; a share only one of
    the generators yielded has an empty list for the other, and a name no
    generator yielded has no entry. *)
Theorem status_entries_in_order h test r used_shares :
  outcome (stats h test) = Ok r →
  r !! "status" = Some (VStatus used_shares) →
  ∃ shares locks,
    outcome (_smbstatus_data h "shares" _parse_share_line test) = Ok shares
    ∧ outcome (_smbstatus_data h "locks" _parse_lock_line test) = Ok locks
    ∧ ∀ name,
        used_shares !! name
        = if decide (name ∈ shares.*1 ++ locks.*1)
          then Some (mk_share_item (records_of name shares)
                                   (records_of name locks))
          else None.
Proof.
  intros Ho Hs.
  destruct (stats_status_inv _ _ _ _ Ho Hs)
    as (su & sl & a & Hsu & Hsl & _ & ->).
  exists su, sl. split; [exact Hsu|split; [exact Hsl|]]. intros name.
  rewrite foldl_add_locked_file_lookup. unfold dd_get.
  rewrite foldl_add_machine_lookup. unfold dd_get. rewrite lookup_empty.
  cbn [default machines locked_files _share_item_skel app].
  destruct (decide (name ∈ su.*1)) as [H1|H1];
    destruct (decide (name ∈ sl.*1)) as [H2|H2];
    destruct (decide (name ∈ su.*1 ++ sl.*1)) as [H3|H3];
    cbn [default machines locked_files _share_item_skel app];
    try (exfalso; apply H3; apply elem_of_app; by (left + right));
    try (exfalso; apply elem_of_app in H3 as [?|?]; done).
  - done.
  - by rewrite (records_of_nil _ _ H2).
  - by rewrite (records_of_nil _ _ H1).
  - done.
Qed.

Lemma status_entries_in_order_witness :
  outcome (stats Examples.host_public false) = Ok Examples.report_public
  ∧ Examples.report_public !! "status"
    = Some (VStatus Examples.status_public)
  ∧ ∃ shares locks,
      outcome (_smbstatus_data Examples.host_public "shares"
                 _parse_share_line false) = Ok shares
      ∧ outcome (_smbstatus_data Examples.host_public "locks"
                   _parse_lock_line false) = Ok locks
      ∧ ∀ name,
          Examples.status_public !! name
          = if decide (name ∈ shares.*1 ++ locks.*1)
            then Some (mk_share_item (records_of name shares)
                                     (records_of name locks))
            else None.
Proof.
  assert (Ho : outcome (stats Examples.host_public false)
               = Ok Examples.report_public) by (vm_compute; reflexivity).
  assert (Hs : Examples.report_public !! "status"
               = Some (VStatus Examples.status_public))
    by (vm_compute; reflexivity).
  split; [exact Ho|split; [exact Hs|]].
  exact (status_entries_in_order _ _ _ _ Ho Hs).
Defined.

(* ===================================================================== *)
(** * A line the shares parser cannot read *)
(* ===================================================================== *)

Section Abort.




End Abort.



(** A record of the locks parser keeps the columns the pattern captured,
    unchanged, as text: [pid], [uid], [denyMode], [access], [rw], [oplock]
    and [filename] are the groups of the match of these names. *)
Theorem lock_record_columns index line v :
  _parse_lock_line index line = Ok (Some v) →
  ∃ g rest,
    re_match _REGEX_LOCKED_FILES (sub_spaces line) = Some (g, rest)
    ∧ ∀ k, k ∈ ["pid"; "uid"; "denyMode"; "access"; "rw"; "oplock";
                "filename"] →
           is_Some (g !! k) ∧ v !! k = g !! k.
Proof.
  intros (g & rest & ds & date & sp & Hm & _ & ->)%parse_lock_Some.
  exists g, rest. split; [exact Hm|]. intros k Hk.
  pose proof (re_match_locked_dom _ _ _ Hm) as Hdom.
  cbn [foldl].
  repeat (apply elem_of_cons in Hk as [->|Hk];
          [split;
           [apply elem_of_dom; rewrite Hdom; set_solver
           |rewrite lookup_insert_ne, lookup_delete_ne, lookup_insert_ne
              by done;
            by rewrite !lookup_delete_ne by done]|]).
  by apply elem_of_nil in Hk.
Qed.

Lemma lock_record_columns_witness :
  _parse_lock_line 0 Examples.lock_line
  = Ok (Some (<["share" := "public"]> Examples.lock_public))
  ∧ ∃ g rest,
      re_match _REGEX_LOCKED_FILES (sub_spaces Examples.lock_line)
      = Some (g, rest)
      ∧ ∀ k, k ∈ ["pid"; "uid"; "denyMode"; "access"; "rw"; "oplock";
                  "filename"] →
             is_Some (g !! k)
             ∧ (<["share" := "public"]> Examples.lock_public) !! k = g !! k.
Proof.
  assert (Hp : _parse_lock_line 0 Examples.lock_line
               = Ok (Some (<["share" := "public"]> Examples.lock_public)))
    by (vm_compute; reflexivity).
  split; [exact Hp|exact (lock_record_columns _ _ _ Hp)].
Defined.


Lemma sub_spaces_normal_witness :
  double_blank "a b" = false ∧ sub_spaces "a b" = "a b".
Proof.
  split; [reflexivity|].
  apply (proj1 (proj2 (sub_spaces_normal "a b"))). reflexivity.
Defined.

Lemma banner_lines_ignored_witness :
  _parse_share_line 3 ("Processing section" +:+ " [public]") = Ok None
  ∧ _parse_lock_line 0 ("Locked files:" +:+ "") = Ok None.
Proof.
  split.
  - apply (proj1 (banner_lines_ignored 3 "Processing section" " [public]")).
    unfold _STATUS_IGNORED_STARTS. set_solver.
  - apply (proj2 (banner_lines_ignored 0 "Locked files:" "")).
    unfold _LOCKS_IGNORED_STARTS. set_solver.
Defined.

Lemma stats_outcomes_witness :
  outcome (stats Examples.host_public false) = Ok Examples.report_public
  ∧ (Examples.report_public = {["in_error" := VBool true]}
     ∨ (dom Examples.report_public = {["in_error"; "status"; "avail_space"]}
        ∧ Examples.report_public !! "in_error" = Some (VBool false)
        ∧ (∃ u, Examples.report_public !! "status" = Some (VStatus u))
        ∧ ∃ a, Examples.report_public !! "avail_space" = Some (VAvail a))).
Proof.
  assert (Ho : outcome (stats Examples.host_public false)
               = Ok Examples.report_public) by (vm_compute; reflexivity).
  split; [exact Ho|].
  exact (proj2 (stats_outcomes Examples.host_public false) _ Ho).
Defined.

Lemma in_error_iff_SmbstatusError_witness :
  EvRaise (SmbstatusError "smbstatus: failed")
  ∈ trace (stats Examples.host_shares_fail false)
  ∧ outcome (stats Examples.host_shares_fail false)
    = Ok {["in_error" := VBool true]}.
Proof.
  assert (Hin : EvRaise (SmbstatusError "smbstatus: failed")
                ∈ trace (stats Examples.host_shares_fail false)).
  { vm_compute. apply list_elem_of_further, list_elem_of_here. }
  split; [exact Hin|].
  apply in_error_iff_SmbstatusError. by eexists.
Defined.

Lemma test_mode_runs_no_smbstatus_witness :
  EvSmbstatus "shares" 0 ∉ trace (stats Examples.host_public true).
Proof. apply test_mode_runs_no_smbstatus. Defined.

